(** * ESP32S3-lightProject: the deterministic control core

    A shallow embedding of the three algorithms of the light node that do
    not depend on the network or the display:

    - [Battery]: [calculateBatteryPercentage] of lib/adcReading/adcReading.cpp;
    - [PM25]: the frame decoder of lib/pm2dot5/getPM2dot5.cpp;
    - [Brightness]: the motion latch and the brightness engine of
      lib/brightnessConfig/brightnessConfig.cpp, with the single-precision
      arithmetic of the curve modelled on the IEEE 754 specification of the
      standard library ([SpecFloat], precision 24, maximal exponent 128),
      both for a build that contracts the one expression of the falling
      curve that C allows to contract and for a build that does not.

    Machine integers are values of [Z] with the conversions of C written
    out where the source performs them. *)

From Stdlib Require Import ZArith List Bool Lia QArith Qround.
From Stdlib Require Import Floats.SpecFloat.
Import ListNotations.

Local Open Scope Z_scope.

(** [lia] extended to [/], [mod], [Z.quot] and [Z.rem] by constants. *)
Ltac zdiv_lia := Z.to_euclidean_division_equations; lia.

(* ================================================================== *)
(** * Machine integers *)

Module CInt.

(** Unsigned conversions: the value modulo [2^w]. *)
Definition to_uint8 (x : Z) : Z := x mod 256.
Definition to_uint16 (x : Z) : Z := x mod 65536.
Definition to_uint32 (x : Z) : Z := x mod 4294967296.

(** Signed two's complement conversions. *)
Definition to_int16 (x : Z) : Z := (x + 32768) mod 65536 - 32768.
Definition to_int (x : Z) : Z := (x + 2147483648) mod 4294967296 - 2147483648.

Definition is_int (x : Z) : Prop := -2147483648 <= x <= 2147483647.
Definition is_uint8 (x : Z) : Prop := 0 <= x <= 255.

End CInt.

(* ================================================================== *)
(** * lib/adcReading: battery percentage *)

Module Battery.
Import CInt.

Definition BATTERY_MIN_VOLTAGE : Z := 3000.
Definition BATTERY_MAX_VOLTAGE : Z := 4200.

(** [int] arithmetic: the result of each operation converted back to
    32 bits; [/] truncates toward zero. *)
Definition isub (a b : Z) : Z := to_int (a - b).
Definition iadd (a b : Z) : Z := to_int (a + b).
Definition imul (a b : Z) : Z := to_int (a * b).
Definition idiv (a b : Z) : Z := to_int (Z.quot a b).

(** The if/else-if chain selecting the segment. *)
Definition segment (voltage_mV : Z) : Z :=
  if voltage_mV >=? 4000 then
    iadd 85 (idiv (imul (isub voltage_mV 4000) 15) 200)
  else if voltage_mV >=? 3800 then
    iadd 60 (idiv (imul (isub voltage_mV 3800) 25) 200)
  else if voltage_mV >=? 3700 then
    iadd 40 (idiv (imul (isub voltage_mV 3700) 20) 100)
  else if voltage_mV >=? 3600 then
    iadd 20 (idiv (imul (isub voltage_mV 3600) 20) 100)
  else if voltage_mV >=? 3300 then
    iadd 5 (idiv (imul (isub voltage_mV 3300) 15) 300)
  else
    idiv (imul (isub voltage_mV 3000) 5) 300.

Definition calculateBatteryPercentage (voltage_mV : Z) : Z :=
  if voltage_mV <=? BATTERY_MIN_VOLTAGE then 0
  else if voltage_mV >=? BATTERY_MAX_VOLTAGE then 100
  else
    let percentage := segment voltage_mV in
    let percentage := if percentage <? 0 then 0 else percentage in
    let percentage := if percentage >? 100 then 100 else percentage in
    percentage.

(** The anchor points of the discharge curve, as the comment above the
    function lists them. *)
Definition breakpoints : list (Z * Z) :=
  [(3000, 0); (3300, 5); (3600, 20); (3700, 40); (3800, 60); (4000, 85);
   (4200, 100)].

(** Consecutive anchors: the six segments. *)
Fixpoint segments (l : list (Z * Z)) : list ((Z * Z) * (Z * Z)) :=
  match l with
  | a :: ((b :: _) as tl) => (a, b) :: segments tl
  | _ => []
  end.

(** Integer interpolation on the segment from [(v0, p0)] to [(v1, p1)]:
    the straight line through the two anchors, rounded down. *)
Definition interpolate (v0 p0 v1 p1 v : Z) : Z :=
  p0 + ((v - v0) * (p1 - p0)) / (v1 - v0).

(** [p] is the percentage that the straight line through [(v0, p0)] and
    [(v1, p1)] gives at [v], with its fractional part dropped. *)
Definition on_line (v0 p0 v1 p1 v p : Z) : Prop :=
  (v1 - v0) * (p - p0) <= (v - v0) * (p1 - p0) < (v1 - v0) * (p - p0 + 1).

End Battery.

(* ================================================================== *)
(** * lib/pm2dot5: the frame decoder *)

Module PM25.
Import CInt.

Definition PM25_HEADER : Z := 0xA5.
Definition PM25_PACKET_SIZE : Z := 4.

(** [pm25_packet_t]: four [uint8_t] fields, in this order. *)
Record pm25_packet_t := {
  header : Z;
  dataH : Z;
  dataL : Z;
  checksum : Z
}.

(** The two globals and the three statics of getPM2dot5.cpp. *)
Record decoder := {
  pm25_concentration : Z;
  pm25_data_ready : bool;
  rx_buffer : list Z;
  buffer_index : Z;
  header_found : bool
}.

(** A store into [rx_buffer] either succeeds or falls outside the array;
    the second case is kept as a result of its own, with the index that
    was used. *)
Inductive result (A : Type) : Type :=
| Ok (a : A)
| OutOfBounds (index : Z).
Arguments Ok {A} a.
Arguments OutOfBounds {A} index.

Definition bind {A B : Type} (r : result A) (k : A -> result B) : result B :=
  match r with
  | Ok a => k a
  | OutOfBounds i => OutOfBounds i
  end.

Notation "x <- c ;; k" := (bind c (fun x => k))
  (at level 61, c at next level, right associativity).

Fixpoint update_nth (n : nat) (v : Z) (l : list Z) : list Z :=
  match l, n with
  | [], _ => []
  | _ :: tl, O => v :: tl
  | x :: tl, S n' => x :: update_nth n' v tl
  end.

(** [rx_buffer[index] = byte]. *)
Definition buffer_store (buf : list Z) (index : Z) (byte : Z)
  : result (list Z) :=
  if (0 <=? index) && (index <? Z.of_nat (length buf))
  then Ok (update_nth (Z.to_nat index) byte buf)
  else OutOfBounds index.

(** [(pm25_packet_t * ) rx_buffer]: the buffer read through the struct. *)
Definition as_packet (buf : list Z) : pm25_packet_t :=
  {| header := nth 0 buf 0;
     dataH := nth 1 buf 0;
     dataL := nth 2 buf 0;
     checksum := nth 3 buf 0 |}.

(** Static initialisers of the translation unit. *)
Definition boot : decoder :=
  {| pm25_concentration := 0;
     pm25_data_ready := false;
     rx_buffer := repeat 0 (Z.to_nat PM25_PACKET_SIZE);
     buffer_index := 0;
     header_found := false |}.

Definition pm25_init (d : decoder) : decoder :=
  {| pm25_concentration := 0;
     pm25_data_ready := false;
     rx_buffer := rx_buffer d;
     buffer_index := 0;
     header_found := false |}.

(** The sum is taken in [int], masked, and narrowed to [uint8_t]. *)
Definition validate_packet (packet : pm25_packet_t) : bool :=
  let calculated_sum :=
    to_uint8 (Z.land (header packet + dataH packet + dataL packet) 0x7F) in
  calculated_sum =? checksum packet.

Definition calculate_concentration (dataH dataL : Z) : Z :=
  to_uint16 (dataH * 128 + dataL).

(** [process_packet] writes the two globals when the packet is valid.  The
    second component records that write: [Some c] when the concentration
    [c] was stored, [None] when the packet was dropped. *)
Definition process_packet (d : decoder) : decoder * option Z :=
  let packet := as_packet (rx_buffer d) in
  if validate_packet packet then
    let c := calculate_concentration (dataH packet) (dataL packet) in
    ({| pm25_concentration := c;
        pm25_data_ready := true;
        rx_buffer := rx_buffer d;
        buffer_index := buffer_index d;
        header_found := header_found d |}, Some c)
  else (d, None).

(** One iteration of the loop of [pm25_update]: [raw] is what
    [Serial2.read()] returned, narrowed to [uint8_t] on assignment. *)
Definition pm25_feed (d : decoder) (raw : Z) : result (decoder * option Z) :=
  let byte := to_uint8 raw in
  if negb (header_found d) then
    if byte =? PM25_HEADER then
      buf <- buffer_store (rx_buffer d) 0 byte ;;
      Ok ({| pm25_concentration := pm25_concentration d;
             pm25_data_ready := pm25_data_ready d;
             rx_buffer := buf;
             buffer_index := 1;
             header_found := true |}, None)
    else Ok (d, None)
  else
    buf <- buffer_store (rx_buffer d) (buffer_index d) byte ;;
    let d1 := {| pm25_concentration := pm25_concentration d;
                 pm25_data_ready := pm25_data_ready d;
                 rx_buffer := buf;
                 buffer_index := to_int (buffer_index d + 1);
                 header_found := header_found d |} in
    if buffer_index d1 >=? PM25_PACKET_SIZE then
      let (d2, frame) := process_packet d1 in
      Ok ({| pm25_concentration := pm25_concentration d2;
             pm25_data_ready := pm25_data_ready d2;
             rx_buffer := rx_buffer d2;
             buffer_index := 0;
             header_found := false |}, frame)
    else Ok (d1, None).

Definition frames_of (frame : option Z) : list Z :=
  match frame with
  | Some c => [c]
  | None => []
  end.

(** [pm25_update] with [pending] the bytes the serial port holds: the
    loop runs once per byte.  The list returned holds, in order, the
    concentrations stored during the call. *)
Fixpoint pm25_update (d : decoder) (pending : list Z)
  : result (decoder * list Z) :=
  match pending with
  | [] => Ok (d, [])
  | raw :: rest =>
      r <- pm25_feed d raw ;;
      r' <- pm25_update (fst r) rest ;;
      Ok (fst r', frames_of (snd r) ++ snd r')
  end.

Definition pm25_get_value (d : decoder) : Z := pm25_concentration d.

Definition pm25_is_data_ready (d : decoder) : bool * decoder :=
  (pm25_data_ready d,
   {| pm25_concentration := pm25_concentration d;
      pm25_data_ready := false;
      rx_buffer := rx_buffer d;
      buffer_index := buffer_index d;
      header_found := header_found d |}).

(** What the decoder keeps between two bytes. *)
Definition decoder_inv (d : decoder) : Prop :=
  length (rx_buffer d) = Z.to_nat PM25_PACKET_SIZE /\
  Forall is_uint8 (rx_buffer d) /\
  (header_found d = true -> 1 <= buffer_index d <= 3) /\
  (header_found d = true -> nth 0 (rx_buffer d) 0 = PM25_HEADER).

End PM25.

(* ================================================================== *)
(** * Single-precision arithmetic *)

Module F32.

(** [float] is IEEE 754 binary32: 24 bits of precision, exponents below
    128.  Every operation rounds to nearest, ties to even, as [SpecFloat]
    defines it; each operation of the source is rounded on its own,
    except where the compiler may contract (see [Contraction]). *)
Definition prec : Z := 24.
Definition emax : Z := 128.

Definition float : Type := spec_float.

(** [(float) n] for an integer [n]. *)
Definition of_int (n : Z) : float := binary_normalize prec emax n 0 false.

Definition mul (x y : float) : float := SFmul prec emax x y.
Definition div (x y : float) : float := SFdiv prec emax x y.
Definition sub (x y : float) : float := SFsub prec emax x y.

(** Whether the compiler contracts [a - b * c] into one fused
    multiply-subtract, which rounds once.  C leaves the choice to the
    implementation and nothing in the repository fixes it, so the
    engine is modelled for both builds. *)
Class Contraction := fused : bool.

(** A zero or finite number as an integer times a power of two. *)
Definition exact_of (x : float) : option (Z * Z) :=
  match x with
  | S754_zero _ => Some (0, 0)
  | S754_finite s m e => Some (if s then Zneg m else Zpos m, e)
  | _ => None
  end.

(** [a - b * c] rounded once: the exact value, then one rounding to
    nearest.  The engine only forms it on zero and finite numbers; on
    the others the two operations are kept. *)
Definition sub_mul (a b c : float) : float :=
  match exact_of a, exact_of b, exact_of c with
  | Some (ma, ea), Some (mb, eb), Some (mc, ec) =>
      let e := Z.min ea (eb + ec) in
      binary_normalize prec emax
        (ma * 2 ^ (ea - e) - mb * mc * 2 ^ (eb + ec - e)) e false
  | _, _, _ => sub a (mul b c)
  end.

(** [x >= y]; false when either side is not a number. *)
Definition geb (x y : float) : bool := SFleb y x.

(** The integer part of a finite value, toward zero. *)
Definition trunc (x : float) : Z :=
  match x with
  | S754_finite s m e =>
      let a := match e with
               | Zneg p => Z.shiftr (Zpos m) (Zpos p)
               | _ => Z.shiftl (Zpos m) e
               end in
      if s then - a else a
  | _ => 0
  end.

(** [(uint8_t) x].  C defines the conversion when the integer part of [x]
    fits the type; [BrightnessFacts.rising_offset_exact] and
    [BrightnessFacts.falling_offset_exact] show that it does wherever the
    engine converts.  Outside that range the model reduces modulo 256. *)
Definition to_uint8 (x : float) : Z := CInt.to_uint8 (trunc x).

End F32.

(* ================================================================== *)
(** * lib/brightnessConfig: motion latch and brightness engine *)

Module Brightness.
Import CInt.

Definition LUX_THRESHOLD_HIGH : Z := 500.
Definition LUX_THRESHOLD_MID : Z := 300.
Definition LUX_THRESHOLD_LOW : Z := 100.

Definition BRIGHTNESS_HIGH_LUX : Z := 50.
Definition BRIGHTNESS_MID_LUX : Z := 80.
Definition BRIGHTNESS_LOW_LUX : Z := 110.
Definition BRIGHTNESS_MAX : Z := 255.

Definition BRIGHTNESS_UP_STEPS : Z := 40.
Definition BRIGHTNESS_DOWN_STEPS : Z := 60.

(** [static uint32_t motionTimeout = 5000]; nothing assigns it. *)
Definition motionTimeout : Z := 5000.

(** The globals and statics of brightnessConfig.cpp. *)
Record state := {
  isMove : bool;
  currentBrightness : Z;
  targetBrightness : Z;
  baseBrightness : Z;
  lastMotionTime : Z;
  brightnessStep : Z;
  isRising : bool;
  isFalling : bool;
  startBrightness : Z
}.

(** [millis()] when the clock reads [now] milliseconds: a [uint32_t]. *)
Definition millis (now : Z) : Z := to_uint32 now.

(** Static initialisers. *)
Definition boot : state :=
  {| isMove := false; currentBrightness := 0; targetBrightness := 0;
     baseBrightness := 0; lastMotionTime := 0; brightnessStep := 0;
     isRising := false; isFalling := false; startBrightness := 0 |}.

Definition brightnessInit (s : state) : state :=
  {| isMove := false; currentBrightness := 0; targetBrightness := 0;
     baseBrightness := 0; lastMotionTime := lastMotionTime s;
     brightnessStep := 0; isRising := false; isFalling := false;
     startBrightness := startBrightness s |}.

Definition set_motion (s : state) (move : bool) (last : Z) : state :=
  {| isMove := move; currentBrightness := currentBrightness s;
     targetBrightness := targetBrightness s;
     baseBrightness := baseBrightness s; lastMotionTime := last;
     brightnessStep := brightnessStep s; isRising := isRising s;
     isFalling := isFalling s; startBrightness := startBrightness s |}.

Definition motionISR (s : state) (now : Z) : state :=
  set_motion s true (millis now).

Definition key1ISR (s : state) (now : Z) : state :=
  set_motion s true (millis now).

Definition key2ISR (s : state) : state :=
  set_motion s false (lastMotionTime s).

(** The integer thresholds are converted to [float] for the comparison. *)
Definition calculateBaseBrightness (Lux : F32.float) : Z :=
  if F32.geb Lux (F32.of_int LUX_THRESHOLD_HIGH) then 0
  else if F32.geb Lux (F32.of_int LUX_THRESHOLD_MID) then BRIGHTNESS_HIGH_LUX
  else if F32.geb Lux (F32.of_int LUX_THRESHOLD_LOW) then BRIGHTNESS_MID_LUX
  else BRIGHTNESS_LOW_LUX.

(** Step 1 of [updateBrightness]: the motion flag expires once more than
    [motionTimeout] milliseconds have passed; the difference is taken in
    [uint32_t]. *)
Definition checkMotionTimeout (s : state) (now : Z) : state :=
  let currentTime := millis now in
  if isMove s && (to_uint32 (currentTime - lastMotionTime s) >? motionTimeout)
  then set_motion s false (lastMotionTime s)
  else s.

(** Step 2: the target. *)
Definition selectTarget (s : state) : state :=
  {| isMove := isMove s; currentBrightness := currentBrightness s;
     targetBrightness :=
       if (baseBrightness s >? 0) && isMove s then BRIGHTNESS_MAX
       else baseBrightness s;
     baseBrightness := baseBrightness s; lastMotionTime := lastMotionTime s;
     brightnessStep := brightnessStep s; isRising := isRising s;
     isFalling := isFalling s; startBrightness := startBrightness s |}.

Definition restart (s : state) (rising falling : bool) : state :=
  {| isMove := isMove s; currentBrightness := currentBrightness s;
     targetBrightness := targetBrightness s;
     baseBrightness := baseBrightness s; lastMotionTime := lastMotionTime s;
     brightnessStep := 0; isRising := rising; isFalling := falling;
     startBrightness := currentBrightness s |}.

(** Step 3: a new transition starts when the target lies on the other
    side of the current value. *)
Definition startTransition (s : state) : state :=
  if negb (targetBrightness s =? currentBrightness s) then
    if targetBrightness s >? currentBrightness s then
      if negb (isRising s) || isFalling s then restart s true false else s
    else
      if negb (isFalling s) || isRising s then restart s false true else s
  else s.

(** [(float) delta * progress] with [progress] the square of
    [step / 40], and its conversion to [uint8_t]. *)
Definition risingProduct (delta step : Z) : F32.float :=
  let progress := F32.div (F32.of_int step) (F32.of_int BRIGHTNESS_UP_STEPS) in
  let progress := F32.mul progress progress in
  F32.mul (F32.of_int delta) progress.

Definition risingOffset (delta step : Z) : Z :=
  F32.to_uint8 (risingProduct delta step).

(** The same with [progress = 1 - (1 - step / 60)^2]: the product and
    the subtraction from 1 are two operations, or one when the build
    contracts them. *)
Definition fallingProduct {fp : F32.Contraction} (delta step : Z)
  : F32.float :=
  let progress :=
    F32.div (F32.of_int step) (F32.of_int BRIGHTNESS_DOWN_STEPS) in
  let progress :=
    if F32.fused then
      F32.sub_mul (F32.of_int 1)
        (F32.sub (F32.of_int 1) progress)
        (F32.sub (F32.of_int 1) progress)
    else
      F32.sub (F32.of_int 1)
        (F32.mul (F32.sub (F32.of_int 1) progress)
                 (F32.sub (F32.of_int 1) progress)) in
  F32.mul (F32.of_int delta) progress.

Definition fallingOffset {fp : F32.Contraction} (delta step : Z) : Z :=
  F32.to_uint8 (fallingProduct delta step).

Definition advance (s : state) (step current : Z) (rising falling : bool)
  : state :=
  {| isMove := isMove s; currentBrightness := current;
     targetBrightness := targetBrightness s;
     baseBrightness := baseBrightness s; lastMotionTime := lastMotionTime s;
     brightnessStep := step; isRising := rising; isFalling := falling;
     startBrightness := startBrightness s |}.

(** Step 4: one step along the curve.  [brightnessStep] is an [int16_t];
    the differences are taken in [int] and the sum is narrowed to
    [uint8_t] when it is assigned. *)
Definition advanceCurve {fp : F32.Contraction} (s : state) : state :=
  if isRising s && (currentBrightness s <? targetBrightness s) then
    let step := to_int16 (brightnessStep s + 1) in
    if step <=? BRIGHTNESS_UP_STEPS then
      advance s step
        (to_uint8 (startBrightness s
                   + risingOffset (targetBrightness s - startBrightness s)
                                  step))
        (isRising s) (isFalling s)
    else advance s step (targetBrightness s) false (isFalling s)
  else if isFalling s && (currentBrightness s >? targetBrightness s) then
    let step := to_int16 (brightnessStep s + 1) in
    if step <=? BRIGHTNESS_DOWN_STEPS then
      advance s step
        (to_uint8 (startBrightness s
                   - fallingOffset (startBrightness s - targetBrightness s)
                                   step))
        (isRising s) (isFalling s)
    else advance s step (targetBrightness s) (isRising s) false
  else
    advance s (brightnessStep s) (currentBrightness s) false false.

(** [updateBrightness] called when the clock reads [now]; the value it
    returns is [currentBrightness] of the state it leaves. *)
Definition updateBrightness {fp : F32.Contraction} (s : state) (now : Z)
  : state :=
  advanceCurve (startTransition (selectTarget (checkMotionTimeout s now))).

(** [calculatePerceivedBrightness]: the tick.  It stores the table entry
    of the reading as base brightness, whatever the engine is doing, and
    then runs [updateBrightness]. *)
Definition set_base (s : state) (base : Z) : state :=
  {| isMove := isMove s; currentBrightness := currentBrightness s;
     targetBrightness := targetBrightness s;
     baseBrightness := base;
     lastMotionTime := lastMotionTime s;
     brightnessStep := brightnessStep s; isRising := isRising s;
     isFalling := isFalling s; startBrightness := startBrightness s |}.

Definition calculatePerceivedBrightness {fp : F32.Contraction} (s : state)
  (Lux : F32.float) (now : Z) : state :=
  updateBrightness (set_base s (calculateBaseBrightness Lux)) now.

(** The phase of the engine, read off the two flags. *)
Inductive phase_t : Type := Idle | Rising | Falling.

Definition phase (s : state) : phase_t :=
  if isRising s then Rising
  else if isFalling s then Falling
  else Idle.

(** What can happen to the state: the three interrupt handlers and the
    periodic call of the light task. *)
Inductive event : Type :=
| EvMotion (now : Z)
| EvKey1 (now : Z)
| EvKey2
| EvTick (Lux : F32.float) (now : Z).

Definition step {fp : F32.Contraction} (s : state) (e : event) : state :=
  match e with
  | EvMotion now => motionISR s now
  | EvKey1 now => key1ISR s now
  | EvKey2 => key2ISR s
  | EvTick Lux now => calculatePerceivedBrightness s Lux now
  end.

Definition run {fp : F32.Contraction} (s : state) (es : list event) : state :=
  fold_left step es s.

(** The states the node can be in: [brightnessInit] followed by any
    sequence of events. *)
Definition reachable {fp : F32.Contraction} (s : state) : Prop :=
  exists es, s = run (brightnessInit boot) es.

(** The brightness returned by each of a series of ticks. *)
Fixpoint outputs {fp : F32.Contraction} (s : state)
  (ticks : list (F32.float * Z)) : list Z :=
  match ticks with
  | [] => []
  | (Lux, now) :: rest =>
      let s' := calculatePerceivedBrightness s Lux now in
      currentBrightness s' :: outputs s' rest
  end.

Definition ticks_of (ticks : list (F32.float * Z)) : list event :=
  map (fun t => EvTick (fst t) (snd t)) ticks.

(** The integers [lo], [lo + 1], ..., [lo + n - 1]. *)
Definition zrange (lo : Z) (n : nat) : list Z :=
  map (fun i => lo + Z.of_nat i) (seq 0 n).

(** The exact value of the rising curve, rounded down: the integer part
    of [delta * (step / 40)^2]. *)
Definition risingExact (delta step : Z) : Z := delta * step * step / 1600.

(** The four points of the rising curve where the exact product is an
    integer and the single-precision product falls just below it. *)
Definition risingShort (delta step : Z) : bool :=
  ((delta =? 100) || (delta =? 200)) && ((step =? 28) || (step =? 36)).

Definition risingCheck (delta step : Z) : bool :=
  let t := F32.trunc (risingProduct delta step) in
  (t =? risingExact delta step - (if risingShort delta step then 1 else 0))
  && (0 <=? t) && (t <=? delta).

Definition fallingCheck {fp : F32.Contraction} (delta step : Z) : bool :=
  let t := F32.trunc (fallingProduct delta step) in
  (0 <=? t) && (t <=? delta).

(** The ambient light of the scenario of section 8: 50 lux. *)
Definition lux50 : F32.float := F32.of_int 50.

Definition dark_ticks (times : list Z) : list (F32.float * Z) :=
  map (fun now => (lux50, now)) times.

(** The state after [n] ticks at 50 lux without motion, in closed form. *)
Definition dark_state (n : nat) : state :=
  match n with
  | O => brightnessInit boot
  | _ =>
      if (n <=? 40)%nat then
        {| isMove := false;
           currentBrightness := risingExact 110 (Z.of_nat n);
           targetBrightness := 110; baseBrightness := 110;
           lastMotionTime := 0; brightnessStep := Z.of_nat n;
           isRising := true; isFalling := false; startBrightness := 0 |}
      else
        {| isMove := false; currentBrightness := 110;
           targetBrightness := 110; baseBrightness := 110;
           lastMotionTime := 0; brightnessStep := 40;
           isRising := false; isFalling := false; startBrightness := 0 |}
  end.

(** What holds of every state the node can be in. *)
Definition state_inv (s : state) : Prop :=
  is_uint8 (currentBrightness s) /\ is_uint8 (targetBrightness s) /\
  is_uint8 (baseBrightness s) /\ is_uint8 (startBrightness s) /\
  0 <= brightnessStep s <= 61 /\
  (isRising s = true ->
     isFalling s = false /\ brightnessStep s <= 40 /\
     startBrightness s <= currentBrightness s) /\
  (isFalling s = true ->
     isRising s = false /\ brightnessStep s <= 60 /\
     currentBrightness s <= startBrightness s).



(** What holds of the engine whichever way the build rounds the falling
    curve. *)
Definition in_every_build (P : F32.Contraction -> Prop) : Prop :=
  P false /\ P true.

End Brightness.

(* ================================================================== *)
(** * lib/adcReading: sampling the two voltages *)

Module AdcReading.
Import CInt Battery.

(** [#define isJLC] of taskCreate.h, which adcReading.cpp includes. *)
Definition isJLC : bool := true.

(** The three globals that [getVoltage] writes. *)
Record readings := {
  battery_mV : Z;
  solar_mV : Z;
  battery_percentage : Z
}.

(** [(adc * scale) >> 12]: the product is a [long], 32 bits on this
    target, and the shifted value is stored in an [int]. *)
Definition scale_reading (adc scale : Z) : Z :=
  to_int (Z.shiftr (to_int (adc * scale)) 12).

(** [getVoltage], with what the two calls of [analogRead] returned.
    [jlc] tells which of the two boards the file is compiled for. *)
Definition getVoltage (jlc : bool) (batteryAdc sunAdc : Z) : readings :=
  let battery := scale_reading batteryAdc 6600 in
  {| battery_mV := battery;
     solar_mV := if jlc then scale_reading sunAdc 6600
                 else scale_reading sunAdc 13300;
     battery_percentage := calculateBatteryPercentage battery |}.

(** [analogReadResolution(12)]: a reading has twelve bits. *)
Definition is_adc (adc : Z) : Prop := 0 <= adc <= 4095.

End AdcReading.

(* ================================================================== *)
(** * lib/pm2dot5 and its task: streams of packets *)

Module PM25Stream.
Import CInt PM25.

(** The packet the sensor sends for the two data bytes, as the header of
    getPM2dot5.cpp lays it out: header, DATAH, DATAL, and the low seven
    bits of their sum. *)
Definition encode_frame (dataH dataL : Z) : list Z :=
  [PM25_HEADER; dataH; dataL; Z.land (PM25_HEADER + dataH + dataL) 0x7F].

(** How many bytes of a packet the decoder holds. *)
Definition fill (d : decoder) : Z :=
  if header_found d then buffer_index d else 0.

(** [pm25DataTask]: [pm25_update] once per period, each time with the
    bytes that arrived since the last call. *)
Fixpoint pm25DataTask (d : decoder) (polls : list (list Z))
  : result (decoder * list Z) :=
  match polls with
  | [] => Ok (d, [])
  | pending :: rest =>
      r <- pm25_update d pending ;;
      r' <- pm25DataTask (fst r) rest ;;
      Ok (fst r', snd r ++ snd r')
  end.

(** The decoder after a packet with data bytes [dataH] and [dataL] has
    been accepted: the buffer keeps the packet. *)
Definition accepted (dataH dataL : Z) : decoder :=
  {| pm25_concentration := dataH * 128 + dataL;
     pm25_data_ready := true;
     rx_buffer := encode_frame dataH dataL;
     buffer_index := 0;
     header_found := false |}.

End PM25Stream.

(* ================================================================== *)
(** * lib/brightnessConfig: what the curves and the lux table compute *)

Module BrightnessCurve.
Import CInt Brightness.

(** The value of a finite single-precision number, times [2^149]: an
    integer, since no exponent is below -149.  Zero for the other
    numbers. *)
Definition scaled (x : F32.float) : Z :=
  match x with
  | S754_finite s m e => (if s then -1 else 1) * Zpos m * 2 ^ (e + 149)
  | _ => 0
  end.

(** The table in the comment above [calculateBaseBrightness], read on
    exact values: [v] is the illuminance times [2^149]. *)
Definition baseFor (v : Z) : Z :=
  if 500 * 2 ^ 149 <=? v then 0
  else if 300 * 2 ^ 149 <=? v then 50
  else if 100 * 2 ^ 149 <=? v then 80
  else 110.

(** The exact value of the falling curve, rounded down: the integer
    part of [delta * (1 - (1 - step / 60)^2)]. *)
Definition fallingExact (delta step : Z) : Z :=
  delta * (3600 - (60 - step) * (60 - step)) / 3600.


(** The points of the falling curve where the exact product is an
    integer and the single-precision product falls just below it:
    thirteen when the product and the subtraction are rounded
    separately; ten when they are contracted, seven of the thirteen and
    three others. *)
Definition fallingShortSeparate (delta step : Z) : bool :=
  ((delta mod 25 =? 0) && (step =? 12))
  || ((delta =? 144) && ((step =? 5) || (step =? 35)))
  || ((delta =? 225) && (step =? 8)).

Definition fallingShortFused (delta step : Z) : bool :=
  ((step =? 12)
   && ((delta =? 75) || (delta =? 125) || (delta =? 150) || (delta =? 175)
       || (delta =? 250)))
  || ((delta =? 144) && ((step =? 5) || (step =? 25)))
  || ((delta =? 225) && ((step =? 4) || (step =? 8) || (step =? 16))).

Definition fallingShort {fp : F32.Contraction} (delta step : Z) : bool :=
  if F32.fused then fallingShortFused delta step
  else fallingShortSeparate delta step.

(** What contraction changes in the falling offset: one more at six
    points, one less at three, nothing elsewhere. *)
Definition contractionGain (delta step : Z) : Z :=
  if ((step =? 12)
      && ((delta =? 25) || (delta =? 50) || (delta =? 100)
          || (delta =? 200) || (delta =? 225)))
     || ((delta =? 144) && (step =? 35))
  then 1
  else if ((delta =? 144) && (step =? 25))
          || ((delta =? 225) && ((step =? 4) || (step =? 16)))
  then -1
  else 0.

Definition contractionCheck (delta step : Z) : bool :=
  fallingOffset (fp := true) delta step
  =? fallingOffset (fp := false) delta step + contractionGain delta step.

(** What is checked of each point of the two curves: the next point is
    not below it, the last point is the whole distance and the one
    before is not. *)
Definition risingShape (delta step : Z) : bool :=
  let here := risingOffset delta step in
  let next := if step <? 40 then risingOffset delta (step + 1) else here in
  (here <=? next)
  && (negb (step =? 40) || (here =? delta))
  && (negb (step =? 39) || (here <? delta)).

Definition fallingShape {fp : F32.Contraction} (delta step : Z) : bool :=
  let product := F32.trunc (fallingProduct delta step) in
  let here := CInt.to_uint8 product in
  let next := if step <? 60 then fallingOffset delta (step + 1) else here in
  (product
   =? fallingExact delta step - (if fallingShort delta step then 1 else 0))
  && (here <=? next)
  && (negb (step =? 60) || (here =? delta))
  && (negb (step =? 59) || (here <? delta)).

(** The brightness lies between the start of the transition and its
    target, and an idle engine is on its target. *)
Definition on_course (s : state) : Prop :=
  (isRising s = true ->
     startBrightness s <= currentBrightness s <= targetBrightness s) /\
  (isFalling s = true ->
     targetBrightness s <= currentBrightness s <= startBrightness s) /\
  (isRising s = false -> isFalling s = false ->
     currentBrightness s = targetBrightness s).

(** The motion flag is clear, or expires, at the tick that runs at
    [now]. *)
Definition quiet (s : state) (now : Z) : Prop :=
  isMove (checkMotionTimeout s now) = false.

(** The engine [step] steps into a rise from [c] to [B], and into a fall
    from [c] to [B], without motion. *)
Definition rising_state (last c B step : Z) : state :=
  {| isMove := false;
     currentBrightness := c + risingOffset (B - c) step;
     targetBrightness := B; baseBrightness := B;
     lastMotionTime := last; brightnessStep := step;
     isRising := true; isFalling := false; startBrightness := c |}.

Definition falling_state {fp : F32.Contraction} (last c B step : Z)
  : state :=
  {| isMove := false;
     currentBrightness := c - fallingOffset (c - B) step;
     targetBrightness := B; baseBrightness := B;
     lastMotionTime := last; brightnessStep := step;
     isRising := false; isFalling := true; startBrightness := c |}.

(** The engine at rest on [B] after a transition of [steps] steps that
    started from [c]. *)
Definition settled_state (last c B steps : Z) : state :=
  {| isMove := false; currentBrightness := B;
     targetBrightness := B; baseBrightness := B;
     lastMotionTime := last; brightnessStep := steps;
     isRising := false; isFalling := false; startBrightness := c |}.

(** The state [n] ticks after the engine, idle in [s], is given the base
    brightness [B]: above the current brightness for [ramp_up], below it
    for [ramp_down]. *)
Definition ramp_up (s : state) (B : Z) (n : nat) : state :=
  match n with
  | O => s
  | _ =>
      if (n <=? 40)%nat
      then rising_state (lastMotionTime s) (currentBrightness s) B
                        (Z.of_nat n)
      else settled_state (lastMotionTime s) (currentBrightness s) B 40
  end.

Definition ramp_down {fp : F32.Contraction} (s : state) (B : Z) (n : nat)
  : state :=
  match n with
  | O => s
  | _ =>
      if (n <=? 60)%nat
      then falling_state (lastMotionTime s) (currentBrightness s) B
                         (Z.of_nat n)
      else settled_state (lastMotionTime s) (currentBrightness s) B 60
  end.

(** The tick that runs at [now] is within the timeout of a trigger at
    [t0], on the 32-bit clock. *)
Definition in_time (t0 now : Z) : Prop :=
  to_uint32 (millis now - millis t0) <= motionTimeout.

(** The engine [step] steps into the rise to full brightness that a
    motion trigger starts from [c], and at rest on it. *)
Definition boost_state (last c B step : Z) : state :=
  {| isMove := true;
     currentBrightness := c + risingOffset (BRIGHTNESS_MAX - c) step;
     targetBrightness := BRIGHTNESS_MAX; baseBrightness := B;
     lastMotionTime := last; brightnessStep := step;
     isRising := true; isFalling := false; startBrightness := c |}.

Definition boosted_state (last c B : Z) : state :=
  {| isMove := true; currentBrightness := BRIGHTNESS_MAX;
     targetBrightness := BRIGHTNESS_MAX; baseBrightness := B;
     lastMotionTime := last; brightnessStep := 40;
     isRising := false; isFalling := false; startBrightness := c |}.

(** The state [n] ticks after a motion trigger at [t0] found the engine
    idle in [s], while the base is [B] and the timeout has not
    passed. *)
Definition boost (s : state) (t0 B : Z) (n : nat) : state :=
  match n with
  | O => motionISR s t0
  | _ =>
      if (n <=? 40)%nat
      then boost_state (millis t0) (currentBrightness s) B (Z.of_nat n)
      else boosted_state (millis t0) (currentBrightness s) B
  end.

End BrightnessCurve.

(* ================================================================== *)
(** * Machine integers: properties *)

Module CIntFacts.
Import CInt.

Lemma to_uint8_range x : 0 <= to_uint8 x <= 255.
Proof. unfold to_uint8. zdiv_lia. Qed.

Lemma to_uint8_small x : 0 <= x <= 255 -> to_uint8 x = x.
Proof. unfold to_uint8. intros. apply Z.mod_small. lia. Qed.

Lemma to_uint16_range x : 0 <= to_uint16 x <= 65535.
Proof. unfold to_uint16. zdiv_lia. Qed.

Lemma to_uint16_small x : 0 <= x <= 65535 -> to_uint16 x = x.
Proof. unfold to_uint16. intros. apply Z.mod_small. lia. Qed.

Lemma to_uint32_range x : 0 <= to_uint32 x <= 4294967295.
Proof. unfold to_uint32. zdiv_lia. Qed.

Lemma to_int_small x : is_int x -> to_int x = x.
Proof. unfold is_int, to_int. intros. zdiv_lia. Qed.

Lemma to_int16_small x : -32768 <= x <= 32767 -> to_int16 x = x.
Proof. unfold to_int16. intros. zdiv_lia. Qed.

(** Masking with [0x7F] keeps the value modulo 128. *)
Lemma land_0x7F x : Z.land x 0x7F = x mod 128.
Proof. exact (Z.land_ones x 7 ltac:(lia)). Qed.

End CIntFacts.

(* ================================================================== *)
(** * Battery percentage: properties *)

Module BatteryFacts.
Import CInt CIntFacts Battery.

(** Between the clamps no operation leaves the range of [int], and the
    function is the plain piecewise formula over [Z]. *)
Lemma segment_exact v :
  3000 < v < 4200 ->
  segment v =
    if v >=? 4000 then 85 + (v - 4000) * 15 / 200
    else if v >=? 3800 then 60 + (v - 3800) * 25 / 200
    else if v >=? 3700 then 40 + (v - 3700) * 20 / 100
    else if v >=? 3600 then 20 + (v - 3600) * 20 / 100
    else if v >=? 3300 then 5 + (v - 3300) * 15 / 300
    else (v - 3000) * 5 / 300.
Proof.
  intros Hv. unfold segment, iadd, idiv, imul, isub, to_int.
  repeat match goal with
         | |- context [?a >=? ?b] => destruct (Z.geb_spec a b)
         end; zdiv_lia.
Qed.

Lemma segment_range v : 3000 < v < 4200 -> 0 <= segment v <= 99.
Proof.
  intros Hv. rewrite segment_exact by assumption.
  repeat match goal with
         | |- context [?a >=? ?b] => destruct (Z.geb_spec a b)
         end; zdiv_lia.
Qed.

Lemma percentage_middle v :
  3000 < v < 4200 -> calculateBatteryPercentage v = segment v.
Proof.
  intros Hv. unfold calculateBatteryPercentage,
    BATTERY_MIN_VOLTAGE, BATTERY_MAX_VOLTAGE.
  pose proof (segment_range v Hv) as Hr.
  destruct (Z.leb_spec v 3000); [lia|].
  destruct (Z.geb_spec v 4200); [lia|].
  cbv zeta.
  destruct (Z.ltb_spec (segment v) 0); [lia|].
  destruct (Z.gtb_spec (segment v) 100); [lia|reflexivity].
Qed.

Lemma percentage_low v : v <= 3000 -> calculateBatteryPercentage v = 0.
Proof.
  intros Hv. unfold calculateBatteryPercentage, BATTERY_MIN_VOLTAGE.
  destruct (Z.leb_spec v 3000); [reflexivity|lia].
Qed.

Lemma percentage_high v : 4200 <= v -> calculateBatteryPercentage v = 100.
Proof.
  intros Hv. unfold calculateBatteryPercentage,
    BATTERY_MIN_VOLTAGE, BATTERY_MAX_VOLTAGE.
  destruct (Z.leb_spec v 3000); [lia|].
  destruct (Z.geb_spec v 4200); [reflexivity|lia].
Qed.

Lemma percentage_range v : 0 <= calculateBatteryPercentage v <= 100.
Proof.
  destruct (Z_le_gt_dec v 3000) as [Hl|Hl].
  - rewrite percentage_low by assumption. lia.
  - destruct (Z_le_gt_dec 4200 v) as [Hh|Hh].
    + rewrite percentage_high by assumption. lia.
    + rewrite percentage_middle by lia.
      pose proof (segment_range v). lia.
Qed.

Ltac split_segments :=
  repeat match goal with
         | |- context [?a >=? ?b] => destruct (Z.geb_spec a b)
         end.

Lemma segment_monotone v1 v2 :
  3000 < v1 -> v1 <= v2 -> v2 < 4200 -> segment v1 <= segment v2.
Proof.
  intros H1 H12 H2.
  rewrite (segment_exact v1), (segment_exact v2) by lia.
  split_segments; zdiv_lia.
Qed.

Lemma percentage_monotone v1 v2 :
  v1 <= v2 -> calculateBatteryPercentage v1 <= calculateBatteryPercentage v2.
Proof.
  intros H12.
  destruct (Z_le_gt_dec v1 3000) as [Hl|Hl].
  - rewrite (percentage_low v1) by assumption. apply percentage_range.
  - destruct (Z_le_gt_dec 4200 v2) as [Hh|Hh].
    + rewrite (percentage_high v2) by assumption. apply percentage_range.
    + rewrite !percentage_middle by lia. apply segment_monotone; lia.
Qed.

Lemma percentage_on_segment v0 p0 v1 p1 v :
  In ((v0, p0), (v1, p1)) (segments breakpoints) ->
  v0 <= v <= v1 ->
  calculateBatteryPercentage v = interpolate v0 p0 v1 p1 v.
Proof.
  intros Hin Hv. unfold interpolate. cbn in Hin.
  destruct (Z.eq_dec v 3000) as [->|Hne0].
  { rewrite percentage_low by lia.
    repeat (destruct Hin as [Hin|Hin];
            [inversion Hin; subst; first [lia | reflexivity]|]).
    contradiction. }
  destruct (Z.eq_dec v 4200) as [->|Hne1].
  { rewrite percentage_high by lia.
    repeat (destruct Hin as [Hin|Hin];
            [inversion Hin; subst; first [lia | reflexivity]|]).
    contradiction. }
  repeat (destruct Hin as [Hin|Hin];
          [inversion Hin; subst; clear Hin;
           rewrite percentage_middle, segment_exact by lia;
           split_segments; zdiv_lia|]).
  contradiction.
Qed.

(** C8. Below 3000 mV the percentage is 0, from 4200 mV on it is 100,
    and the percentage never decreases when the voltage grows. *)
Theorem percent_clamps_and_is_monotone :
  (forall v, v < 3000 -> calculateBatteryPercentage v = 0) /\
  (forall v, v >= 4200 -> calculateBatteryPercentage v = 100) /\
  (forall v1 v2, v1 <= v2 ->
     calculateBatteryPercentage v1 <= calculateBatteryPercentage v2).
Proof.
  split; [|split].
  - intros v Hv. apply percentage_low. lia.
  - intros v Hv. apply percentage_high. lia.
  - apply percentage_monotone.
Qed.

Lemma percent_clamps_and_is_monotone_witness :
  calculateBatteryPercentage 2999 = 0 /\
  calculateBatteryPercentage 4200 = 100 /\
  calculateBatteryPercentage 3650 <= calculateBatteryPercentage 3900.
Proof.
  destruct percent_clamps_and_is_monotone as [Hlow [Hhigh Hmono]].
  split; [|split].
  - apply (Hlow 2999). lia.
  - apply (Hhigh 4200). lia.
  - apply (Hmono 3650 3900). lia.
Defined.

(** C9. At each of the seven breakpoints the percentage is the anchored
    one, and on each of the six segments between consecutive breakpoints
    the percentage is the linear interpolation of the two anchors in
    integer arithmetic: it lies on the straight line through them, the
    fraction dropped. *)
Theorem percent_piecewise_linear :
  Forall (fun bp => calculateBatteryPercentage (fst bp) = snd bp)
         breakpoints /\
  length (segments breakpoints) = 6%nat /\
  forall v0 p0 v1 p1 v,
    In ((v0, p0), (v1, p1)) (segments breakpoints) ->
    v0 <= v <= v1 ->
    calculateBatteryPercentage v = interpolate v0 p0 v1 p1 v /\
    on_line v0 p0 v1 p1 v (calculateBatteryPercentage v).
Proof.
  split; [|split].
  - repeat constructor.
  - reflexivity.
  - intros v0 p0 v1 p1 v Hin Hv.
    rewrite (percentage_on_segment v0 p0 v1 p1 v Hin Hv).
    split; [reflexivity|].
    unfold on_line, interpolate. cbn in Hin.
    repeat (destruct Hin as [Hin|Hin];
            [inversion Hin; subst; clear Hin; zdiv_lia|]).
    contradiction.
Qed.

Lemma percent_piecewise_linear_witness :
  calculateBatteryPercentage 3650 = 30 /\ on_line 3600 20 3700 40 3650 30.
Proof.
  destruct percent_piecewise_linear as [_ [_ Hseg]].
  apply (Hseg 3600 20 3700 40 3650).
  - cbn. tauto.
  - lia.
Defined.

End BatteryFacts.
(* ================================================================== *)
(** * Frame decoder: properties *)

Module PM25Facts.
Import CInt CIntFacts PM25.

Lemma update_nth_length n v l : length (update_nth n v l) = length l.
Proof.
  revert n. induction l as [|x l IH]; intros [|n]; cbn; auto.
Qed.

Lemma update_nth_Forall (P : Z -> Prop) n v l :
  P v -> Forall P l -> Forall P (update_nth n v l).
Proof.
  intros Hv Hl. revert n.
  induction Hl as [|x l Hx Hl IH]; intros [|n]; cbn; auto.
Qed.

Lemma update_nth_same n v l d :
  (n < length l)%nat -> nth n (update_nth n v l) d = v.
Proof.
  revert n. induction l as [|x l IH]; intros [|n] Hn; cbn in *;
    try lia; auto. apply IH. lia.
Qed.

Lemma update_nth_other n m v l d :
  n <> m -> nth m (update_nth n v l) d = nth m l d.
Proof.
  revert n m. induction l as [|x l IH]; intros [|n] [|m] Hnm; cbn;
    try congruence; auto.
Qed.

(** A store succeeds exactly when its index is inside the array. *)
Lemma buffer_store_in_bounds buf index byte :
  0 <= index < Z.of_nat (length buf) ->
  buffer_store buf index byte = Ok (update_nth (Z.to_nat index) byte buf).
Proof.
  intros [H0 H1]. unfold buffer_store.
  destruct (Z.leb_spec 0 index); [|lia].
  destruct (Z.ltb_spec index (Z.of_nat (length buf))); [reflexivity|lia].
Qed.

Lemma buffer_store_out_of_bounds buf index byte :
  ~ 0 <= index < Z.of_nat (length buf) ->
  buffer_store buf index byte = OutOfBounds index.
Proof.
  intros H. unfold buffer_store.
  destruct (Z.leb_spec 0 index); [|reflexivity].
  destruct (Z.ltb_spec index (Z.of_nat (length buf))); [lia|reflexivity].
Qed.

Lemma init_inv : decoder_inv (pm25_init boot).
Proof.
  unfold decoder_inv; cbn. repeat split; try discriminate.
  repeat constructor; unfold is_uint8; lia.
Qed.

Lemma process_packet_fields d d' frame :
  process_packet d = (d', frame) ->
  rx_buffer d' = rx_buffer d /\
  buffer_index d' = buffer_index d /\
  header_found d' = header_found d.
Proof.
  unfold process_packet.
  destruct (validate_packet (as_packet (rx_buffer d)));
    intros H; inversion H; subst; cbn; auto.
Qed.

(** What [process_packet] reports is what it stored. *)
Lemma process_packet_frame d d' frame :
  process_packet d = (d', frame) ->
  match frame with
  | Some c =>
      validate_packet (as_packet (rx_buffer d)) = true /\
      c = calculate_concentration (nth 1 (rx_buffer d) 0)
                                  (nth 2 (rx_buffer d) 0) /\
      pm25_concentration d' = c /\ pm25_data_ready d' = true
  | None =>
      validate_packet (as_packet (rx_buffer d)) = false /\ d' = d
  end.
Proof.
  unfold process_packet.
  destruct (validate_packet (as_packet (rx_buffer d))) eqn:Hv;
    intros H; inversion H; subst; cbn; auto.
Qed.

(** One byte: the store is in bounds and the invariant is kept. *)
Ltac fields :=
  cbn [rx_buffer buffer_index header_found pm25_concentration
       pm25_data_ready].

Tactic Notation "fields" "in" hyp(H) :=
  cbn [rx_buffer buffer_index header_found pm25_concentration
       pm25_data_ready] in H.

Lemma pm25_feed_inv d raw :
  decoder_inv d ->
  exists d' frame, pm25_feed d raw = Ok (d', frame) /\ decoder_inv d'.
Proof.
  intros (Hlen & Hbytes & Hidx & Hhdr). unfold pm25_feed.
  pose proof (to_uint8_range raw) as Hb.
  destruct (header_found d) eqn:Hf; cbn [negb].
  - specialize (Hidx eq_refl). specialize (Hhdr eq_refl).
    rewrite buffer_store_in_bounds by (rewrite Hlen; cbn; lia).
    cbn [bind buffer_index].
    rewrite to_int_small by (unfold is_int; lia).
    destruct (Z.geb_spec (buffer_index d + 1) PM25_PACKET_SIZE) as [Hge|Hlt].
    + destruct (process_packet _) as [d2 frame] eqn:Hp.
      apply process_packet_fields in Hp. cbn in Hp.
      destruct Hp as (Hbuf & _ & _).
      eexists _, _. split; [reflexivity|].
      unfold decoder_inv; fields. rewrite Hbuf, update_nth_length.
      repeat split; try discriminate; auto.
      apply update_nth_Forall; auto.
    + unfold PM25_PACKET_SIZE in Hlt.
      eexists _, _. split; [reflexivity|].
      unfold decoder_inv; fields. rewrite update_nth_length.
      repeat split; try lia; auto.
      * apply update_nth_Forall; auto.
      * intros _. rewrite update_nth_other; auto.
        intros E. apply (f_equal Z.of_nat) in E.
        rewrite Z2Nat.id in E by lia. cbn in E. lia.
  - destruct (Z.eqb_spec (to_uint8 raw) PM25_HEADER) as [He|Hne].
    + rewrite buffer_store_in_bounds by (rewrite Hlen; cbn; lia).
      cbn [bind].
      eexists _, _. split; [reflexivity|].
      unfold decoder_inv; fields. rewrite update_nth_length.
      repeat split; try lia; auto.
      * apply update_nth_Forall; auto.
      * intros _. rewrite He.
        destruct (rx_buffer d); [discriminate Hlen|reflexivity].
    + eexists _, _. split; [reflexivity|].
      unfold decoder_inv. rewrite Hf. repeat split; auto; discriminate.
Qed.

(** The whole loop, whatever bytes are pending. *)
Lemma pm25_update_inv pending : forall d,
  decoder_inv d ->
  exists d' frames, pm25_update d pending = Ok (d', frames) /\ decoder_inv d'.
Proof.
  induction pending as [|raw rest IH]; intros d Hd; cbn [pm25_update].
  - eexists _, _. split; [reflexivity|assumption].
  - destruct (pm25_feed_inv d raw Hd) as (d1 & frame & Hfeed & Hd1).
    rewrite Hfeed. cbn [bind fst snd].
    destruct (IH d1 Hd1) as (d2 & frames & Hrest & Hd2).
    rewrite Hrest. cbn [bind fst snd].
    eexists _, _. split; [reflexivity|assumption].
Qed.

Lemma reached_inv pending d frames :
  pm25_update (pm25_init boot) pending = Ok (d, frames) -> decoder_inv d.
Proof.
  intros H.
  destruct (pm25_update_inv pending _ init_inv) as (d' & fr & H' & Hinv).
  rewrite H in H'. inversion H'; subst. assumption.
Qed.

Lemma byte_at n (buf : list Z) : Forall is_uint8 buf -> 0 <= nth n buf 0 <= 255.
Proof.
  intros H. destruct (Nat.lt_ge_cases n (length buf)) as [Hn|Hn].
  - rewrite Forall_forall in H. apply H. apply nth_In. assumption.
  - rewrite nth_overflow by assumption. lia.
Qed.

(** A byte that makes the decoder store a concentration is the fourth
    byte of a packet whose checksum matches. *)
Lemma pm25_feed_frame d raw d' c :
  decoder_inv d ->
  pm25_feed d raw = Ok (d', Some c) ->
  header_found d = true /\ buffer_index d = 3 /\
  rx_buffer d' = update_nth 3 (to_uint8 raw) (rx_buffer d) /\
  validate_packet (as_packet (rx_buffer d')) = true /\
  c = calculate_concentration (nth 1 (rx_buffer d') 0)
                              (nth 2 (rx_buffer d') 0) /\
  pm25_concentration d' = c /\ pm25_data_ready d' = true /\
  header_found d' = false /\ buffer_index d' = 0.
Proof.
  intros (Hlen & Hbytes & Hidx & Hhdr). unfold pm25_feed.
  destruct (header_found d) eqn:Hf; cbn [negb].
  - specialize (Hidx eq_refl).
    rewrite buffer_store_in_bounds by (rewrite Hlen; cbn; lia).
    cbn [bind buffer_index].
    rewrite to_int_small by (unfold is_int; lia).
    destruct (Z.geb_spec (buffer_index d + 1) PM25_PACKET_SIZE) as [Hge|Hlt];
      [|discriminate].
    unfold PM25_PACKET_SIZE in Hge.
    assert (buffer_index d = 3) as Hi by lia. rewrite Hi.
    change (Z.to_nat 3) with 3%nat.
    destruct (process_packet _) as [d2 frame] eqn:Hp.
    intros H; inversion H; subst; clear H.
    pose proof (process_packet_fields _ _ _ Hp) as (Hbuf & _ & _).
    apply process_packet_frame in Hp. fields. fields in Hp. fields in Hbuf.
    destruct Hp as (Hv & Hc & Hcc & Hr).
    rewrite Hbuf. auto 10.
  - destruct (to_uint8 raw =? PM25_HEADER).
    + destruct (buffer_store _ _ _); cbn [bind]; discriminate.
    + discriminate.
Qed.

Lemma concentration_bounds (buf : list Z) :
  Forall is_uint8 buf ->
  calculate_concentration (nth 1 buf 0) (nth 2 buf 0)
  = nth 1 buf 0 * 128 + nth 2 buf 0 /\
  0 <= calculate_concentration (nth 1 buf 0) (nth 2 buf 0) <= 32895.
Proof.
  intros H. pose proof (byte_at 1 buf H). pose proof (byte_at 2 buf H).
  unfold calculate_concentration. rewrite to_uint16_small by lia. lia.
Qed.

Lemma pm25_update_frames pending : forall d d' frames,
  decoder_inv d ->
  pm25_update d pending = Ok (d', frames) ->
  Forall (fun c => 0 <= c <= 32895) frames.
Proof.
  induction pending as [|raw rest IH]; intros d d' frames Hd;
    cbn [pm25_update].
  - intros H; inversion H; constructor.
  - destruct (pm25_feed_inv d raw Hd) as (d1 & frame & Hfeed & Hd1).
    rewrite Hfeed. cbn [bind fst snd].
    destruct (pm25_update d1 rest) as [[d2 fr]|i] eqn:Hrest;
      cbn [bind fst snd]; [|discriminate].
    intros H; inversion H; subst; clear H.
    apply Forall_app. split; [|eapply IH; eassumption].
    destruct frame as [c|]; cbn [frames_of]; constructor; [|constructor].
    destruct (pm25_feed_frame _ _ _ _ Hd Hfeed) as (_ & _ & _ & _ & Hc & _).
    rewrite Hc. apply concentration_bounds. apply Hd1.
Qed.

(** C1, as the code has it. Whatever was fed before, a concentration
    that the decoder stores comes from a packet whose checksum matches
    and equals dataH * 128 + dataL for the two data bytes as received,
    all eight bits of each: it lies in 0..32895, and in 0..16383 when
    both data bytes are below 128. Every concentration stored while a
    stream is fed lies in 0..32895. *)
Theorem concentration_range pending d frames :
  pm25_update (pm25_init boot) pending = Ok (d, frames) ->
  Forall (fun c => 0 <= c <= 32895) frames /\
  forall raw d' c,
    pm25_feed d raw = Ok (d', Some c) ->
    let packet := as_packet (rx_buffer d') in
    validate_packet packet = true /\
    pm25_concentration d' = c /\
    c = dataH packet * 128 + dataL packet /\
    0 <= dataH packet <= 255 /\ 0 <= dataL packet <= 255 /\
    0 <= c <= 32895 /\
    (dataH packet <= 127 -> dataL packet <= 127 -> 0 <= c <= 16383).
Proof.
  intros Hrun. split.
  - eapply pm25_update_frames; [apply init_inv|eassumption].
  - intros raw d' c Hfeed packet. subst packet.
    pose proof (reached_inv _ _ _ Hrun) as Hd.
    destruct (pm25_feed_inv d raw Hd) as (d1 & frame & Hfeed' & Hd1).
    rewrite Hfeed in Hfeed'. inversion Hfeed'; subst d1 frame.
    destruct (pm25_feed_frame _ _ _ _ Hd Hfeed)
      as (_ & _ & _ & Hv & Hc & Hcc & _).
    destruct Hd1 as (_ & Hbytes & _).
    pose proof (concentration_bounds _ Hbytes) as [Heq Hrange].
    pose proof (byte_at 1 _ Hbytes). pose proof (byte_at 2 _ Hbytes).
    cbn [as_packet dataH dataL]. rewrite Hc, Heq. repeat split; auto; lia.
Qed.

Lemma concentration_range_witness :
  Forall (fun c => 0 <= c <= 32895) [172] /\ 0 <= 172 <= 16383.
Proof.
  pose (d3 := {| pm25_concentration := 0; pm25_data_ready := false;
                 rx_buffer := [0xA5; 0x01; 0x2C; 0];
                 buffer_index := 3; header_found := true |}).
  pose (d4 := {| pm25_concentration := 172; pm25_data_ready := true;
                 rx_buffer := [0xA5; 0x01; 0x2C; 0x52];
                 buffer_index := 0; header_found := false |}).
  assert (pm25_update (pm25_init boot) [0xA5; 0x01; 0x2C] = Ok (d3, []))
    as H3 by (vm_compute; reflexivity).
  assert (pm25_update (pm25_init boot) [0xA5; 0x01; 0x2C; 0x52]
          = Ok (d4, [172])) as H4 by (vm_compute; reflexivity).
  assert (pm25_feed d3 0x52 = Ok (d4, Some 172))
    as Hfeed by (vm_compute; reflexivity).
  split.
  - exact (proj1 (concentration_range _ _ _ H4)).
  - destruct (concentration_range _ _ _ H3) as [_ H].
    destruct (H _ _ _ Hfeed) as (_ & _ & _ & _ & _ & _ & Hr).
    apply Hr; vm_compute; discriminate.
Defined.

(** C1, as stated, fails: the packet A5 FF FF 23 passes the checksum and
    the concentration stored is 32895. *)
Lemma concentration_above_16383 :
  exists d,
    pm25_update (pm25_init boot) [0xA5; 0xFF; 0xFF; 0x23] = Ok (d, [32895]) /\
    validate_packet (as_packet (rx_buffer d)) = true /\
    pm25_concentration d = 32895 /\
    ~ (0 <= pm25_concentration d <= 16383).
Proof.
  exists {| pm25_concentration := 32895; pm25_data_ready := true;
            rx_buffer := [0xA5; 0xFF; 0xFF; 0x23];
            buffer_index := 0; header_found := false |}.
  split; [vm_compute; reflexivity|].
  split; [vm_compute; reflexivity|].
  split; [reflexivity|]. cbn [pm25_concentration]. lia.
Qed.

(** C2, as stated, fails: on 00 00 A5 01 2C 9E the decoder stores no
    concentration at all; the data-ready flag stays clear. *)
Lemma noise_stream_yields_no_frame :
  exists d frames,
    pm25_update (pm25_init boot) [0x00; 0x00; 0xA5; 0x01; 0x2C; 0x9E]
    = Ok (d, frames) /\
    length frames <> 1%nat /\
    pm25_data_ready d = false /\
    validate_packet (as_packet [0xA5; 0x01; 0x2C; 0x9E]) = false.
Proof.
  exists {| pm25_concentration := 0; pm25_data_ready := false;
            rx_buffer := [0xA5; 0x01; 0x2C; 0x9E];
            buffer_index := 0; header_found := false |}, [].
  split; [vm_compute; reflexivity|].
  split; [discriminate|].
  split; [reflexivity|vm_compute; reflexivity].
Qed.

(** C2, as the code has it. From the initial state the two leading 00
    bytes leave the decoder as it was. The packet A5 01 2C has checksum
    52, not 9E: with 9E as last byte no frame is produced and the decoder
    is back to the header search at index 0; with 52 in its place the
    stream produces exactly one frame, of concentration 172, the same
    frame as without the two leading bytes. *)
Theorem noise_before_header_is_ignored :
  pm25_update (pm25_init boot) [0x00; 0x00] = Ok (pm25_init boot, []) /\
  Z.land (0xA5 + 0x01 + 0x2C) 0x7F = 0x52 /\
  (exists d,
     pm25_update (pm25_init boot) [0x00; 0x00; 0xA5; 0x01; 0x2C; 0x9E]
     = Ok (d, []) /\
     header_found d = false /\ buffer_index d = 0 /\
     pm25_data_ready d = false /\ pm25_concentration d = 0) /\
  (exists d,
     pm25_update (pm25_init boot) [0x00; 0x00; 0xA5; 0x01; 0x2C; 0x52]
     = Ok (d, [172]) /\
     pm25_update (pm25_init boot) [0xA5; 0x01; 0x2C; 0x52] = Ok (d, [172]) /\
     header_found d = false /\ buffer_index d = 0 /\
     pm25_data_ready d = true /\ pm25_concentration d = 172).
Proof.
  split; [vm_compute; reflexivity|].
  split; [reflexivity|].
  split.
  - exists {| pm25_concentration := 0; pm25_data_ready := false;
              rx_buffer := [0xA5; 0x01; 0x2C; 0x9E];
              buffer_index := 0; header_found := false |}.
    split; [vm_compute; reflexivity|]. repeat split.
  - exists {| pm25_concentration := 172; pm25_data_ready := true;
              rx_buffer := [0xA5; 0x01; 0x2C; 0x52];
              buffer_index := 0; header_found := false |}.
    split; [vm_compute; reflexivity|].
    split; [vm_compute; reflexivity|]. repeat split.
Qed.

(** C4. Whatever was fed before, when the decoder holds a header and two
    payload bytes and the next byte is not the low seven bits of their
    sum, that byte produces no frame, leaves the stored concentration
    and the data-ready flag as they were, and puts the decoder back to
    the header search at index 0: a header byte that comes next is taken
    as the start of a packet. *)
Theorem bad_checksum_resynchronises pending d frames raw :
  pm25_update (pm25_init boot) pending = Ok (d, frames) ->
  header_found d = true ->
  buffer_index d = 3 ->
  to_uint8 raw <>
    Z.land (nth 0 (rx_buffer d) 0 + nth 1 (rx_buffer d) 0
            + nth 2 (rx_buffer d) 0) 0x7F ->
  exists d',
    pm25_feed d raw = Ok (d', None) /\
    pm25_concentration d' = pm25_concentration d /\
    pm25_data_ready d' = pm25_data_ready d /\
    header_found d' = false /\ buffer_index d' = 0 /\
    exists d'',
      pm25_feed d' PM25_HEADER = Ok (d'', None) /\
      header_found d'' = true /\ buffer_index d'' = 1 /\
      nth 0 (rx_buffer d'') 0 = PM25_HEADER.
Proof.
  intros Hrun Hf Hi Hsum.
  pose proof (reached_inv _ _ _ Hrun) as Hd.
  destruct Hd as (Hlen & Hbytes & Hidx & Hhdr).
  destruct (rx_buffer d) as [|b0 [|b1 [|b2 [|b3 [|? ?]]]]] eqn:Hbuf;
    try discriminate Hlen.
  cbn [nth] in Hsum.
  assert (pm25_feed d raw
          = Ok ({| pm25_concentration := pm25_concentration d;
                   pm25_data_ready := pm25_data_ready d;
                   rx_buffer := [b0; b1; b2; to_uint8 raw];
                   buffer_index := 0; header_found := false |}, None))
    as Hfeed.
  { unfold pm25_feed. rewrite Hf, Hi, Hbuf. cbn [negb].
    unfold buffer_store.
    change ((0 <=? 3) && (3 <? Z.of_nat (length [b0; b1; b2; b3])))
      with true.
    cbn iota. change (Z.to_nat 3) with 3%nat. cbn [update_nth bind].
    fields. change (to_int (3 + 1) >=? PM25_PACKET_SIZE) with true.
    cbn iota. unfold process_packet, validate_packet. fields.
    cbn [as_packet nth header dataH dataL checksum].
    assert (0 <= Z.land (b0 + b1 + b2) 0x7F <= 127) as Hm.
    { rewrite land_0x7F. zdiv_lia. }
    rewrite to_uint8_small by lia.
    destruct (Z.eqb_spec (Z.land (b0 + b1 + b2) 0x7F) (to_uint8 raw));
      [congruence|reflexivity]. }
  eexists. split; [exact Hfeed|]. fields.
  repeat split.
  eexists. split; [vm_compute; reflexivity|]. repeat split.
Qed.

Lemma bad_checksum_resynchronises_witness :
  exists d',
    pm25_feed {| pm25_concentration := 0; pm25_data_ready := false;
                 rx_buffer := [0xA5; 0x01; 0x2C; 0];
                 buffer_index := 3; header_found := true |} 0x9E
    = Ok (d', None) /\
    pm25_concentration d' = 0 /\ pm25_data_ready d' = false /\
    header_found d' = false /\ buffer_index d' = 0.
Proof.
  pose (d3 := {| pm25_concentration := 0; pm25_data_ready := false;
                 rx_buffer := [0xA5; 0x01; 0x2C; 0];
                 buffer_index := 3; header_found := true |}).
  assert (pm25_update (pm25_init boot) [0xA5; 0x01; 0x2C] = Ok (d3, []))
    as H3 by (vm_compute; reflexivity).
  destruct (bad_checksum_resynchronises _ _ _ 0x9E H3 eq_refl eq_refl)
    as (d' & Hfeed & Hc & Hr & Hh & Hi & _).
  - vm_compute. discriminate.
  - exists d'. repeat split; assumption.
Defined.

(** C10. The decoder invariant (a four-byte buffer; while a header has
    been found the index is 1, 2 or 3 and the header sits at index 0)
    holds after [pm25_init] and is kept by every call of [pm25_update],
    whatever bytes are pending; no store of such a call falls outside
    the buffer, and a store into a four-byte buffer is inside it exactly
    when its index is 0, 1, 2 or 3. *)
Theorem stores_stay_in_buffer :
  decoder_inv (pm25_init boot) /\
  (forall d pending,
     decoder_inv d ->
     (exists d' frames,
        pm25_update d pending = Ok (d', frames) /\ decoder_inv d') /\
     (forall index, pm25_update d pending <> OutOfBounds index)) /\
  (forall buf index byte,
     length buf = 4%nat ->
     (0 <= index <= 3 <-> exists buf', buffer_store buf index byte = Ok buf')).
Proof.
  split; [apply init_inv|]. split.
  - intros d pending Hd.
    destruct (pm25_update_inv pending d Hd) as (d' & frames & Hrun & Hd').
    split.
    + exists d', frames. auto.
    + intros index. rewrite Hrun. discriminate.
  - intros buf index byte Hlen. split.
    + intros Hi. eexists. apply buffer_store_in_bounds. rewrite Hlen. lia.
    + intros [buf' Hst].
      destruct (Z_le_dec 0 index) as [H0|H0];
        [destruct (Z_le_dec index 3) as [H3|H3]; [lia|]|];
        rewrite buffer_store_out_of_bounds in Hst
          by (rewrite Hlen; lia); discriminate.
Qed.

Lemma stores_stay_in_buffer_witness :
  (exists d' frames,
     pm25_update (pm25_init boot) [0xA5; 0xA5; 0xA5; 0xA5; 0xA5; 0xA5]
     = Ok (d', frames) /\ decoder_inv d') /\
  (exists buf', buffer_store [0; 0; 0; 0] 3 0xA5 = Ok buf').
Proof.
  destruct stores_stay_in_buffer as (Hinit & Hstep & Hstore).
  split.
  - apply (Hstep (pm25_init boot)). exact Hinit.
  - apply (Hstore [0; 0; 0; 0] 3 0xA5); [reflexivity|lia].
Defined.

End PM25Facts.

(* ================================================================== *)
(** * Motion latch and brightness engine: properties *)

Module BrightnessFacts.
Import CInt CIntFacts Brightness.

Ltac state_fields :=
  cbn [isMove currentBrightness targetBrightness baseBrightness
       lastMotionTime brightnessStep isRising isFalling startBrightness
       set_motion set_base restart advance] in *.

(** ** The two curves, point by point *)

Lemma in_zrange lo n x :
  lo <= x < lo + Z.of_nat n -> In x (zrange lo n).
Proof.
  intros H. unfold zrange. apply in_map_iff.
  exists (Z.to_nat (x - lo)). split; [lia|].
  apply in_seq. lia.
Qed.

Lemma table_complete (check : Z -> Z -> bool) n m :
  forallb (fun d => forallb (check d) (zrange 1 m)) (zrange 1 n) = true ->
  forall d k, 1 <= d <= Z.of_nat n -> 1 <= k <= Z.of_nat m ->
              check d k = true.
Proof.
  intros Hall d k Hd Hk.
  rewrite forallb_forall in Hall.
  specialize (Hall d (in_zrange 1 n d ltac:(lia))).
  rewrite forallb_forall in Hall.
  apply Hall. apply in_zrange. lia.
Qed.

Lemma rising_table :
  forallb (fun d => forallb (risingCheck d) (zrange 1 40)) (zrange 1 255)
  = true.
Proof. vm_compute. reflexivity. Qed.

Lemma falling_table (build : F32.Contraction) :
  forallb (fun d => forallb (@fallingCheck build d) (zrange 1 60))
          (zrange 1 255)
  = true.
Proof. destruct build; vm_compute; reflexivity. Qed.

(** A fact about every build is checked build by build. *)
Lemma build_by_build (P : F32.Contraction -> Prop) :
  (let fp : F32.Contraction := false in P fp) ->
  (let fp : F32.Contraction := true in P fp) ->
  in_every_build P.
Proof. intros H0 H1. split; [exact H0|exact H1]. Qed.

(** From here on the build is any of the two. *)
Section Build.
Context {fp : F32.Contraction}.

(** On the rising curve the conversion to [uint8_t] is always defined;
    the offset is the integer part of the exact product, or one less
    at the four points of [risingShort]. *)
Lemma rising_offset_exact delta step :
  1 <= delta <= 255 -> 1 <= step <= 40 ->
  risingOffset delta step = F32.trunc (risingProduct delta step) /\
  risingOffset delta step
  = risingExact delta step - (if risingShort delta step then 1 else 0) /\
  0 <= risingOffset delta step <= delta.
Proof.
  intros Hd Hk.
  pose proof (table_complete risingCheck 255 40 rising_table delta step
                ltac:(lia) ltac:(lia)) as H.
  unfold risingCheck in H. cbv zeta in H.
  apply andb_prop in H. destruct H as [H Hle].
  apply andb_prop in H. destruct H as [Heq Hge].
  apply Z.eqb_eq in Heq. apply Z.leb_le in Hge, Hle.
  assert (risingOffset delta step = F32.trunc (risingProduct delta step))
    as Hconv.
  { unfold risingOffset, F32.to_uint8. apply to_uint8_small. lia. }
  rewrite Hconv. repeat split; auto.
Qed.

Lemma falling_offset_exact delta step :
  1 <= delta <= 255 -> 1 <= step <= 60 ->
  fallingOffset delta step = F32.trunc (fallingProduct delta step) /\
  0 <= fallingOffset delta step <= delta.
Proof.
  intros Hd Hk.
  pose proof (table_complete fallingCheck 255 60 (falling_table fp) delta step
                ltac:(lia) ltac:(lia)) as H.
  unfold fallingCheck in H. cbv zeta in H.
  apply andb_prop in H. destruct H as [Hge Hle].
  apply Z.leb_le in Hge, Hle.
  assert (fallingOffset delta step = F32.trunc (fallingProduct delta step))
    as Hconv.
  { unfold fallingOffset, F32.to_uint8. apply to_uint8_small. lia. }
  rewrite Hconv. auto.
Qed.


(** ** The invariant of the engine *)

Lemma init_state_inv : state_inv (brightnessInit boot).
Proof.
  unfold state_inv, is_uint8; cbn. repeat split; try lia; discriminate.
Qed.

Lemma set_motion_inv s move last : state_inv s -> state_inv (set_motion s move last).
Proof. unfold state_inv. state_fields. auto. Qed.

Lemma checkMotionTimeout_inv s now :
  state_inv s -> state_inv (checkMotionTimeout s now).
Proof.
  intros H. unfold checkMotionTimeout.
  destruct (isMove s && _); [apply set_motion_inv|]; assumption.
Qed.

Lemma calculateBaseBrightness_values Lux :
  In (calculateBaseBrightness Lux) [0; 50; 80; 110].
Proof.
  unfold calculateBaseBrightness.
  repeat match goal with
         | |- context [F32.geb ?a ?b] => destruct (F32.geb a b)
         end; cbn; auto.
Qed.

Lemma calculateBaseBrightness_uint8 Lux : is_uint8 (calculateBaseBrightness Lux).
Proof.
  pose proof (calculateBaseBrightness_values Lux) as H. unfold is_uint8.
  cbn in H. lia.
Qed.

Lemma selectTarget_inv s : state_inv s -> state_inv (selectTarget s).
Proof.
  unfold state_inv, selectTarget, is_uint8, BRIGHTNESS_MAX. state_fields.
  intros (Hc & Ht & Hb & Hs & Hstep & Hr & Hf).
  repeat split; try lia; try (apply Hr; assumption);
    try (apply Hf; assumption);
    destruct ((baseBrightness s >? 0) && isMove s); lia.
Qed.

Lemma startTransition_inv s : state_inv s -> state_inv (startTransition s).
Proof.
  intros H. unfold startTransition.
  destruct (negb _); [|assumption].
  destruct (_ >? _).
  - destruct (negb (isRising s) || isFalling s); [|assumption].
    destruct H as (Hc & Ht & Hb & Hs & Hstep & Hr & Hf).
    unfold state_inv, is_uint8 in *. state_fields.
    repeat split; try lia; discriminate.
  - destruct (negb (isFalling s) || isRising s); [|assumption].
    destruct H as (Hc & Ht & Hb & Hs & Hstep & Hr & Hf).
    unfold state_inv, is_uint8 in *. state_fields.
    repeat split; try lia; discriminate.
Qed.

(** After step 3 the flags point toward the target. *)
Lemma startTransition_direction s :
  let s3 := startTransition s in
  currentBrightness s3 = currentBrightness s /\
  targetBrightness s3 = targetBrightness s /\
  (currentBrightness s3 < targetBrightness s3 ->
     isRising s3 = true /\ isFalling s3 = false) /\
  (targetBrightness s3 < currentBrightness s3 ->
     isFalling s3 = true /\ isRising s3 = false).
Proof.
  unfold startTransition.
  destruct (Z.eqb_spec (targetBrightness s) (currentBrightness s)) as [E|N];
    cbn [negb].
  - repeat split; lia.
  - destruct (Z.gtb_spec (targetBrightness s) (currentBrightness s)).
    + destruct (isRising s) eqn:Hr, (isFalling s) eqn:Hf; cbn [negb orb];
        state_fields; repeat split; auto; lia.
    + destruct (isRising s) eqn:Hr, (isFalling s) eqn:Hf; cbn [negb orb];
        state_fields; repeat split; auto; lia.
Qed.

(** What one rising step computes, on a state that satisfies the
    invariant. *)
Lemma advanceCurve_rising s :
  state_inv s ->
  isRising s = true ->
  currentBrightness s < targetBrightness s ->
  let step := brightnessStep s + 1 in
  let delta := targetBrightness s - startBrightness s in
  1 <= delta <= 255 /\ 1 <= step <= 41 /\
  advanceCurve s =
    if step <=? 40
    then advance s step (startBrightness s + risingOffset delta step)
                 true false
    else advance s step (targetBrightness s) false false.
Proof.
  intros (Hc & Ht & Hb & Hs & Hstep & Hr & Hf) Hris Hlt step delta.
  destruct (Hr Hris) as (Hfal & Hle & Hstart).
  unfold is_uint8 in *. subst step delta.
  split; [lia|]. split; [lia|].
  unfold advanceCurve. rewrite Hris, Hfal. cbn [andb].
  destruct (Z.ltb_spec (currentBrightness s) (targetBrightness s)); [|lia].
  rewrite to_int16_small by lia. unfold BRIGHTNESS_UP_STEPS.
  destruct (Z.leb_spec (brightnessStep s + 1) 40); [|reflexivity].
  destruct (rising_offset_exact
              (targetBrightness s - startBrightness s)
              (brightnessStep s + 1)) as (_ & _ & Hoff); [lia|lia|].
  rewrite to_uint8_small by lia. reflexivity.
Qed.

Lemma advanceCurve_falling s :
  state_inv s ->
  isFalling s = true ->
  targetBrightness s < currentBrightness s ->
  let step := brightnessStep s + 1 in
  let delta := startBrightness s - targetBrightness s in
  1 <= delta <= 255 /\ 1 <= step <= 61 /\
  advanceCurve s =
    if step <=? 60
    then advance s step (startBrightness s - fallingOffset delta step)
                 false true
    else advance s step (targetBrightness s) false false.
Proof.
  intros (Hc & Ht & Hb & Hs & Hstep & Hr & Hf) Hfal Hlt step delta.
  destruct (Hf Hfal) as (Hris & Hle & Hstart).
  unfold is_uint8 in *. subst step delta.
  split; [lia|]. split; [lia|].
  unfold advanceCurve. rewrite Hris, Hfal. cbn [andb].
  destruct (Z.gtb_spec (currentBrightness s) (targetBrightness s)); [|lia].
  rewrite to_int16_small by lia. unfold BRIGHTNESS_DOWN_STEPS.
  destruct (Z.leb_spec (brightnessStep s + 1) 60); [|reflexivity].
  destruct (falling_offset_exact
              (startBrightness s - targetBrightness s)
              (brightnessStep s + 1)) as (_ & Hoff); [lia|lia|].
  rewrite to_uint8_small by lia. reflexivity.
Qed.

Lemma advanceCurve_inv s : state_inv s -> state_inv (advanceCurve s).
Proof.
  intros H.
  destruct (isRising s && (currentBrightness s <? targetBrightness s))
    eqn:Hbr.
  - apply andb_prop in Hbr. destruct Hbr as [Hris Hlt].
    apply Z.ltb_lt in Hlt.
    destruct (advanceCurve_rising s H Hris Hlt) as (Hd & Hk & ->).
    destruct H as (Hc & Ht & Hb & Hs & Hstep & Hr & Hf).
    destruct (Hr Hris) as (Hfal & Hle & Hstart).
    unfold state_inv, is_uint8 in *.
    destruct (Z.leb_spec (brightnessStep s + 1) 40).
    + destruct (rising_offset_exact
                  (targetBrightness s - startBrightness s)
                  (brightnessStep s + 1)) as (_ & _ & Hoff); [lia|lia|].
      state_fields. repeat split; try lia; discriminate.
    + state_fields. repeat split; try lia; discriminate.
  - destruct (isFalling s && (currentBrightness s >? targetBrightness s))
      eqn:Hbf.
    + apply andb_prop in Hbf. destruct Hbf as [Hfal Hgt].
      apply Z.gtb_lt in Hgt.
      destruct (advanceCurve_falling s H Hfal Hgt) as (Hd & Hk & ->).
      destruct H as (Hc & Ht & Hb & Hs & Hstep & Hr & Hf).
      destruct (Hf Hfal) as (Hris & Hle & Hstart).
      unfold state_inv, is_uint8 in *.
      destruct (Z.leb_spec (brightnessStep s + 1) 60).
      * destruct (falling_offset_exact
                    (startBrightness s - targetBrightness s)
                    (brightnessStep s + 1)) as (_ & Hoff); [lia|lia|].
        state_fields. repeat split; try lia; discriminate.
      * state_fields. repeat split; try lia; discriminate.
    + unfold advanceCurve. rewrite Hbr, Hbf.
      destruct H as (Hc & Ht & Hb & Hs & Hstep & Hr & Hf).
      unfold state_inv, is_uint8 in *. state_fields.
      repeat split; try lia; discriminate.
Qed.

Lemma updateBrightness_inv s now :
  state_inv s -> state_inv (updateBrightness s now).
Proof.
  intros H. unfold updateBrightness.
  apply advanceCurve_inv, startTransition_inv, selectTarget_inv,
    checkMotionTimeout_inv, H.
Qed.

Lemma set_base_inv s base :
  state_inv s -> is_uint8 base -> state_inv (set_base s base).
Proof.
  intros (Hc & Ht & Hb & Hs & Hstep & Hr & Hf) Hbase.
  unfold state_inv. state_fields. auto 10.
Qed.

Lemma calculatePerceivedBrightness_inv s Lux now :
  state_inv s -> state_inv (calculatePerceivedBrightness s Lux now).
Proof.
  intros H. unfold calculatePerceivedBrightness.
  apply updateBrightness_inv, set_base_inv; [exact H|].
  apply calculateBaseBrightness_uint8.
Qed.

Lemma step_inv s e : state_inv s -> state_inv (step s e).
Proof.
  intros H. destruct e; cbn [step].
  - apply set_motion_inv, H.
  - apply set_motion_inv, H.
  - apply set_motion_inv, H.
  - apply calculatePerceivedBrightness_inv, H.
Qed.

Lemma run_inv es : forall s, state_inv s -> state_inv (run s es).
Proof.
  unfold run. induction es as [|e es IH]; intros s H; cbn [fold_left].
  - assumption.
  - apply IH, step_inv, H.
Qed.

Lemma reachable_inv s : reachable s -> state_inv s.
Proof. intros [es ->]. apply run_inv, init_state_inv. Qed.

Lemma reachable_step s e : reachable s -> reachable (step s e).
Proof.
  intros [es ->]. exists (es ++ [e]). unfold run.
  rewrite fold_left_app. reflexivity.
Qed.

(** ** The motion latch *)

Lemma advanceCurve_isMove s : isMove (advanceCurve s) = isMove s.
Proof.
  unfold advanceCurve.
  repeat match goal with
         | |- context [if ?b then _ else _] => destruct b
         end; reflexivity.
Qed.

Lemma startTransition_isMove s : isMove (startTransition s) = isMove s.
Proof.
  unfold startTransition.
  repeat match goal with
         | |- context [if ?b then _ else _] => destruct b
         end; reflexivity.
Qed.

(** Only step 1 of [updateBrightness] touches the motion flag. *)
Lemma updateBrightness_isMove s now :
  isMove (updateBrightness s now) = isMove (checkMotionTimeout s now).
Proof.
  unfold updateBrightness.
  rewrite advanceCurve_isMove, startTransition_isMove. reflexivity.
Qed.

Lemma elapsed_since_trigger t0 dt :
  0 <= dt < 4294967296 ->
  to_uint32 (millis (t0 + dt) - millis t0) = dt.
Proof.
  intros H. unfold millis, to_uint32.
  rewrite <- Zminus_mod.
  replace (t0 + dt - t0) with dt by lia.
  apply Z.mod_small. lia.
Qed.

Lemma latch_after_trigger s t0 dt :
  0 <= dt < 4294967296 ->
  isMove (updateBrightness (set_motion s true (millis t0)) (t0 + dt))
  = (dt <=? motionTimeout).
Proof.
  intros H. rewrite updateBrightness_isMove. unfold checkMotionTimeout.
  state_fields. rewrite elapsed_since_trigger by assumption.
  cbn [andb]. rewrite Z.gtb_ltb, Z.ltb_antisym.
  destruct (dt <=? motionTimeout); reflexivity.
Qed.

Lemma latch_after_clear s now :
  isMove (updateBrightness (key2ISR s) now) = false.
Proof.
  rewrite updateBrightness_isMove. unfold checkMotionTimeout, key2ISR.
  state_fields. reflexivity.
Qed.

(** C5. The timeout is 5000 ms. After a trigger at time [t0], from the
    sensor or from key 1, the tick that runs at [t0 + timeout - 1] still
    finds the motion flag set and the tick that runs at
    [t0 + timeout + 1] finds it cleared, wherever the 32-bit clock
    stands; after key 2 has cleared a trigger, the next tick finds the
    flag cleared at whatever time it runs. *)
Theorem motion_latch_expires_after_timeout s t0 :
  motionTimeout = 5000 /\
  (forall s1, s1 = motionISR s t0 \/ s1 = key1ISR s t0 ->
     isMove s1 = true /\
     isMove (updateBrightness s1 (t0 + motionTimeout - 1)) = true /\
     isMove (updateBrightness s1 (t0 + motionTimeout + 1)) = false /\
     forall now, isMove (updateBrightness (key2ISR s1) now) = false).
Proof.
  split; [reflexivity|].
  intros s1 Hs1.
  assert (s1 = set_motion s true (millis t0)) as ->
    by (destruct Hs1; assumption).
  split; [reflexivity|].
  replace (t0 + motionTimeout - 1) with (t0 + 4999)
    by (unfold motionTimeout; lia).
  replace (t0 + motionTimeout + 1) with (t0 + 5001)
    by (unfold motionTimeout; lia).
  rewrite !latch_after_trigger by lia.
  repeat split. intros now. apply latch_after_clear.
Qed.

(** ** Idle means on target *)

Lemma phase_idle s :
  phase s = Idle <-> isRising s = false /\ isFalling s = false.
Proof.
  unfold phase. destruct (isRising s), (isFalling s); split;
    intros H; try discriminate; auto; destruct H; discriminate.
Qed.

Lemma advanceCurve_idle s :
  (currentBrightness s < targetBrightness s -> isRising s = true) ->
  (targetBrightness s < currentBrightness s -> isFalling s = true) ->
  phase (advanceCurve s) = Idle ->
  currentBrightness (advanceCurve s) = targetBrightness (advanceCurve s).
Proof.
  intros Hup Hdown. unfold advanceCurve.
  destruct (isRising s) eqn:Hr; cbn [andb].
  - destruct (Z.ltb_spec (currentBrightness s) (targetBrightness s)).
    + destruct (_ <=? BRIGHTNESS_UP_STEPS).
      * unfold phase. state_fields. discriminate.
      * reflexivity.
    + destruct (isFalling s) eqn:Hf; cbn [andb].
      * destruct (Z.gtb_spec (currentBrightness s) (targetBrightness s)).
        -- destruct (_ <=? BRIGHTNESS_DOWN_STEPS).
           ++ unfold phase. state_fields. discriminate.
           ++ reflexivity.
        -- state_fields. lia.
      * state_fields. intros _.
        destruct (Z.lt_trichotomy (currentBrightness s) (targetBrightness s))
          as [Hlt|[Heq|Hgt]]; [lia|assumption|].
        specialize (Hdown Hgt). congruence.
  - destruct (isFalling s) eqn:Hf; cbn [andb].
    + destruct (Z.gtb_spec (currentBrightness s) (targetBrightness s)).
      * destruct (_ <=? BRIGHTNESS_DOWN_STEPS).
        -- unfold phase. state_fields. discriminate.
        -- reflexivity.
      * state_fields. intros _.
        destruct (Z.lt_trichotomy (currentBrightness s) (targetBrightness s))
          as [Hlt|[Heq|Hgt]]; [|assumption|lia].
        specialize (Hup Hlt). congruence.
    + state_fields. intros _.
      destruct (Z.lt_trichotomy (currentBrightness s) (targetBrightness s))
        as [Hlt|[Heq|Hgt]]; [|assumption|].
      * specialize (Hup Hlt). congruence.
      * specialize (Hdown Hgt). congruence.
Qed.

Lemma updateBrightness_idle s now :
  phase (updateBrightness s now) = Idle ->
  currentBrightness (updateBrightness s now)
  = targetBrightness (updateBrightness s now).
Proof.
  unfold updateBrightness.
  pose proof (startTransition_direction
                (selectTarget (checkMotionTimeout s now)))
    as (_ & _ & Hup & Hdown).
  apply advanceCurve_idle.
  - intros H. apply Hup, H.
  - intros H. apply Hdown, H.
Qed.

(** C7. After every call of the tick, from any state and with any
    input, an idle engine (neither flag set) is on its target; hence the
    same holds in every state the node can reach, whatever the sequence
    of interrupts and ticks. *)
Theorem idle_implies_on_target :
  (forall s now,
     phase (updateBrightness s now) = Idle ->
     currentBrightness (updateBrightness s now)
     = targetBrightness (updateBrightness s now)) /\
  (forall s Lux now,
     phase (calculatePerceivedBrightness s Lux now) = Idle ->
     currentBrightness (calculatePerceivedBrightness s Lux now)
     = targetBrightness (calculatePerceivedBrightness s Lux now)) /\
  (forall s, reachable s -> phase s = Idle ->
             currentBrightness s = targetBrightness s).
Proof.
  split; [|split].
  - apply updateBrightness_idle.
  - intros s Lux now. unfold calculatePerceivedBrightness.
    apply updateBrightness_idle.
  - intros s [es ->]. unfold run.
    induction es as [|e es IH] using rev_ind.
    + reflexivity.
    + rewrite fold_left_app. cbn [fold_left].
      destruct e; cbn [step]; try exact IH.
      unfold calculatePerceivedBrightness. apply updateBrightness_idle.
Qed.

(** ** One rising step *)


(** ** The ramp at 50 lux without motion *)

(** Without motion the clock plays no part in a tick. *)
Lemma tick_without_motion s Lux now :
  isMove s = false ->
  calculatePerceivedBrightness s Lux now
  = calculatePerceivedBrightness s Lux 0.
Proof.
  intros H. unfold calculatePerceivedBrightness, updateBrightness,
    checkMotionTimeout. state_fields. rewrite H. reflexivity.
Qed.

Lemma dark_state_isMove n : isMove (dark_state n) = false.
Proof.
  destruct n; [reflexivity|]. unfold dark_state.
  destruct (_ <=? _)%nat; reflexivity.
Qed.

Lemma dark_state_late n : (41 <= n)%nat -> dark_state n = dark_state 41.
Proof.
  intros H. destruct n; [lia|]. unfold dark_state.
  destruct (Nat.leb_spec (S n) 40); [lia|reflexivity].
Qed.

Lemma dark_step_table :
  Forall (fun n => calculatePerceivedBrightness (dark_state n) lux50 0
                   = dark_state (S n)) (seq 0 42).
Proof.
  cbn [seq].
  repeat (apply Forall_cons; [vm_compute; reflexivity|]).
  apply Forall_nil.
Qed.

(** One tick takes the closed form to the next one. *)
Lemma dark_step n now :
  calculatePerceivedBrightness (dark_state n) lux50 now = dark_state (S n).
Proof.
  rewrite tick_without_motion by apply dark_state_isMove.
  destruct (Nat.le_gt_cases n 41) as [Hle|Hgt].
  - pose proof dark_step_table as H. rewrite Forall_forall in H.
    apply H. apply in_seq. lia.
  - rewrite (dark_state_late n), (dark_state_late (S n)) by lia.
    pose proof dark_step_table as H. rewrite Forall_forall in H.
    rewrite (H 41%nat) by (apply in_seq; lia).
    apply dark_state_late. lia.
Qed.

Lemma run_dark times : forall n,
  run (dark_state n) (ticks_of (dark_ticks times))
  = dark_state (n + length times).
Proof.
  unfold run. induction times as [|now times IH]; intros n;
    cbn [dark_ticks ticks_of map fold_left length step fst snd].
  - rewrite Nat.add_0_r. reflexivity.
  - rewrite dark_step. fold (dark_ticks times).
    fold (ticks_of (dark_ticks times)). rewrite IH. f_equal. lia.
Qed.

Lemma outputs_length s ticks : length (outputs s ticks) = length ticks.
Proof.
  revert s. induction ticks as [|[Lux now] ticks IH]; intros s;
    cbn [outputs length]; auto.
Qed.

Lemma outputs_dark times : forall n i,
  (i < length times)%nat ->
  nth i (outputs (dark_state n) (dark_ticks times)) 0
  = currentBrightness (dark_state (n + S i)).
Proof.
  induction times as [|now times IH]; intros n i Hi;
    cbn [dark_ticks map outputs length] in *; [lia|].
  rewrite dark_step. destruct i as [|i]; cbn [nth].
  - f_equal. f_equal. lia.
  - fold (dark_ticks times). rewrite IH by lia. f_equal. f_equal. lia.
Qed.

Lemma dark_current n :
  currentBrightness (dark_state n)
  = if (n <=? 40)%nat then risingExact 110 (Z.of_nat n) else 110.
Proof.
  destruct n; [reflexivity|]. unfold dark_state.
  destruct (_ <=? _)%nat; reflexivity.
Qed.

Lemma dark_current_monotone i j :
  (i <= j)%nat ->
  currentBrightness (dark_state i) <= currentBrightness (dark_state j) <= 110.
Proof.
  intros Hij. rewrite !dark_current. unfold risingExact.
  destruct (Nat.leb_spec i 40), (Nat.leb_spec j 40); try lia.
  - split.
    + apply Z.div_le_mono; [lia|]. nia.
    + apply Z.div_le_upper_bound; [lia|]. nia.
  - split; [|lia]. apply Z.div_le_upper_bound; [lia|]. nia.
Qed.

Lemma dark_current_arrival n :
  currentBrightness (dark_state n) = 110 <-> (40 <= n)%nat.
Proof.
  rewrite dark_current. unfold risingExact.
  destruct (Nat.leb_spec n 40) as [Hle|Hgt]; [|split; [lia|reflexivity]].
  split.
  - intros H. destruct (Nat.eq_dec n 40) as [->|Hne]; [lia|].
    assert (110 * Z.of_nat n * Z.of_nat n / 1600 <= 104) as Hb.
    { change 104 with (110 * 39 * 39 / 1600).
      apply Z.div_le_mono; [lia|]. nia. }
    lia.
  - intros H. replace n with 40%nat by lia. reflexivity.
Qed.

(** C6, as the code has it. From the initial state, with 50 lux (base
    110) and no motion, at whatever times the ticks run: the brightness
    returned never decreases and never exceeds 110; it is 110 from the
    40th tick on and not before. Right after the 40th tick the engine is
    still in the Rising phase; it is Idle after the 41st tick and after
    every later one, and from then on a further tick with the same
    inputs leaves the whole state, brightness and phase included,
    unchanged. *)
Theorem dark_ramp_reaches_base times :
  let ticks := dark_ticks times in
  let out := outputs (brightnessInit boot) ticks in
  let s := run (brightnessInit boot) (ticks_of ticks) in
  calculateBaseBrightness lux50 = 110 /\
  isMove s = false /\
  length out = length times /\
  (forall i j, (i <= j < length times)%nat ->
               nth i out 0 <= nth j out 0 <= 110) /\
  (forall i, (i < length times)%nat ->
             (nth i out 0 = 110 <-> (39 <= i)%nat)) /\
  (length times = 40%nat ->
     currentBrightness s = 110 /\ phase s = Rising) /\
  ((41 <= length times)%nat ->
     currentBrightness s = 110 /\ phase s = Idle /\
     forall now, calculatePerceivedBrightness s lux50 now = s).
Proof.
  intros ticks out s.
  assert (s = dark_state (length times)) as Hs
    by apply (run_dark times 0).
  assert (forall i, (i < length times)%nat ->
                    nth i out 0 = currentBrightness (dark_state (S i)))
    as Hout by (intros i Hi; apply (outputs_dark times 0 i Hi)).
  split; [vm_compute; reflexivity|].
  split; [rewrite Hs; apply dark_state_isMove|].
  split; [unfold out, ticks, dark_ticks;
          rewrite outputs_length; apply length_map|].
  split; [|split; [|split]].
  - intros i j Hij. rewrite !Hout by lia.
    apply dark_current_monotone. lia.
  - intros i Hi. rewrite Hout by assumption.
    rewrite dark_current_arrival. lia.
  - intros H. rewrite Hs, H. split; reflexivity.
  - intros H. rewrite Hs, (dark_state_late _ H).
    split; [reflexivity|]. split; [reflexivity|].
    intros now. rewrite dark_step. apply dark_state_late. lia.
Qed.

End Build.

(** ** The theorems at work, in both builds *)

Lemma motion_latch_expires_after_timeout_witness :
  in_every_build (fun fp =>
  isMove (updateBrightness (motionISR (brightnessInit boot) 4294967000)
            (4294967000 + 5000 - 1)) = true /\
  isMove (updateBrightness (motionISR (brightnessInit boot) 4294967000)
            (4294967000 + 5000 + 1)) = false).
Proof.
  apply build_by_build; intros fp.
  {
    destruct (motion_latch_expires_after_timeout
                (brightnessInit boot) 4294967000) as [_ H].
    destruct (H (motionISR (brightnessInit boot) 4294967000)
                (or_introl eq_refl)) as (_ & Hon & Hoff & _).
    split; [exact Hon|exact Hoff].
  }
  {
    destruct (motion_latch_expires_after_timeout
                (brightnessInit boot) 4294967000) as [_ H].
    destruct (H (motionISR (brightnessInit boot) 4294967000)
                (or_introl eq_refl)) as (_ & Hon & Hoff & _).
    split; [exact Hon|exact Hoff].
  }
Defined.

Lemma idle_implies_on_target_witness :
  in_every_build (fun fp =>
  currentBrightness
    (calculatePerceivedBrightness (brightnessInit boot) (F32.of_int 600) 0)
  = targetBrightness
      (calculatePerceivedBrightness (brightnessInit boot) (F32.of_int 600) 0)).
Proof.
  apply build_by_build; intros fp.
  {
    destruct idle_implies_on_target as (_ & H & _).
    apply (H (brightnessInit boot) (F32.of_int 600) 0).
    vm_compute. reflexivity.
  }
  {
    destruct idle_implies_on_target as (_ & H & _).
    apply (H (brightnessInit boot) (F32.of_int 600) 0).
    vm_compute. reflexivity.
  }
Defined.



Lemma dark_ramp_reaches_base_witness :
  in_every_build (fun fp =>
  let times := map (fun i => 50 * Z.of_nat i) (seq 1 41) in
  let s := run (brightnessInit boot) (ticks_of (dark_ticks times)) in
  nth 0 (outputs (brightnessInit boot) (dark_ticks times)) 0
  <= nth 39 (outputs (brightnessInit boot) (dark_ticks times)) 0 <= 110 /\
  currentBrightness s = 110 /\ phase s = Idle).
Proof.
  apply build_by_build; intros fp.
  {
    intros times s.
    destruct (dark_ramp_reaches_base times)
      as (_ & _ & _ & Hmono & _ & _ & Hlate).
    split.
    - apply (Hmono 0%nat 39%nat). vm_compute. split; repeat constructor.
    - destruct Hlate as (Hc & Hp & _).
      + vm_compute. repeat constructor.
      + split; [exact Hc|exact Hp].
  }
  {
    intros times s.
    destruct (dark_ramp_reaches_base times)
      as (_ & _ & _ & Hmono & _ & _ & Hlate).
    split.
    - apply (Hmono 0%nat 39%nat). vm_compute. split; repeat constructor.
    - destruct Hlate as (Hc & Hp & _).
      + vm_compute. repeat constructor.
      + split; [exact Hc|exact Hp].
  }
Defined.

(** C6, as stated, fails: with ticks every 50 ms the brightness first
    reaches 110 at the 40th tick (it is 104 after the 39th); at that
    moment the phase is Rising, not Idle, and the 41st tick, with the
    same inputs, changes the phase. *)
Lemma dark_ramp_not_idle_on_arrival :
  in_every_build (fun fp =>
  let times := map (fun i => 50 * Z.of_nat i) (seq 1 40) in
  let out := outputs (brightnessInit boot) (dark_ticks times) in
  let s40 := run (brightnessInit boot) (ticks_of (dark_ticks times)) in
  let s41 := calculatePerceivedBrightness s40 lux50 2050 in
  length out = 40%nat /\
  nth 38 out 0 = 104 /\ nth 39 out 0 = 110 /\
  currentBrightness s40 = 110 /\
  phase s40 = Rising /\ phase s40 <> Idle /\
  phase s41 = Idle /\ phase s41 <> phase s40).
Proof.
  vm_compute. repeat split; discriminate.
Qed.

End BrightnessFacts.

(* ================================================================== *)
(** * Battery percentage and sampling: further properties *)

Module AdcFacts.
Import CInt CIntFacts Battery BatteryFacts AdcReading.

(** X1. Whatever [int] it is given, [calculateBatteryPercentage]
    returns a percentage between 0 and 100; between the two clamps the
    interpolation itself stays within 0..99, so the final clamping of
    the function never changes a value. *)
Theorem percentage_always_valid :
  (forall v, 0 <= calculateBatteryPercentage v <= 100) /\
  (forall v, 3000 < v < 4200 ->
             0 <= segment v <= 99 /\
             calculateBatteryPercentage v = segment v).
Proof.
  split.
  - apply percentage_range.
  - intros v Hv. split; [apply segment_range|apply percentage_middle];
      assumption.
Qed.

Lemma percentage_always_valid_witness :
  0 <= segment 3650 <= 99 /\ calculateBatteryPercentage 3650 = segment 3650.
Proof.
  destruct percentage_always_valid as [_ H]. apply (H 3650). lia.
Defined.

(** X2. The battery reads empty up to 3059 mV and not above, and reads
    full from 4200 mV on and not below. *)
Theorem percentage_empty_and_full v :
  (calculateBatteryPercentage v = 0 <-> v <= 3059) /\
  (calculateBatteryPercentage v = 100 <-> 4200 <= v).
Proof.
  destruct (Z_le_gt_dec v 3000) as [Hl|Hl].
  - rewrite percentage_low by assumption. lia.
  - destruct (Z_le_gt_dec 4200 v) as [Hh|Hh].
    + rewrite percentage_high by assumption. lia.
    + rewrite percentage_middle, segment_exact by lia.
      split_segments; zdiv_lia.
Qed.

(** X3. One more millivolt never lowers the percentage and raises it by
    at most one point: the six segments join without a jump. *)
Theorem percentage_has_no_jump v :
  0 <= calculateBatteryPercentage (v + 1) - calculateBatteryPercentage v <= 1.
Proof.
  pose proof (percentage_monotone v (v + 1) ltac:(lia)) as Hmono.
  split; [lia|].
  destruct (Z_le_gt_dec (v + 1) 3000) as [Hl|Hl].
  - rewrite (percentage_low (v + 1)) by assumption.
    pose proof (percentage_range v). lia.
  - destruct (Z_le_gt_dec 4200 v) as [Hh|Hh].
    + rewrite (percentage_high v) by assumption.
      pose proof (percentage_range (v + 1)). lia.
    + destruct (Z.eq_dec v 3000) as [->|H0].
      { vm_compute. discriminate. }
      destruct (Z.eq_dec v 4199) as [->|H1].
      { vm_compute. discriminate. }
      rewrite !percentage_middle, !segment_exact by lia.
      split_segments; zdiv_lia.
Qed.

(** The shift is a division by 4096 and nothing overflows. *)
Lemma scale_reading_exact adc scale :
  is_adc adc -> 0 <= scale <= 13300 ->
  scale_reading adc scale = adc * scale / 4096.
Proof.
  unfold is_adc, scale_reading. intros Ha Hs.
  assert (0 <= adc * scale <= 4095 * 13300) as Hp by nia.
  rewrite (to_int_small (adc * scale)) by (unfold is_int; lia).
  rewrite Z.shiftr_div_pow2 by lia. change (2 ^ 12) with 4096.
  apply to_int_small. unfold is_int.
  assert (0 <= adc * scale / 4096 <= adc * scale).
  { split; [apply Z.div_pos; lia|].
    apply Z.div_le_upper_bound; lia. }
  lia.
Qed.

(** X4. For twelve-bit readings [getVoltage] stores
    floor(adc * 6600 / 4096) millivolts for the battery, between 0 and
    6598, and the same for the panel on this board (floor(adc * 13300 /
    4096), at most 13296, on the other one); no product leaves 32 bits.
    Shifting by 12 instead of dividing by 4095, as the file header
    explains, costs at most 2 mV on the battery. *)
Theorem getVoltage_millivolts jlc batteryAdc sunAdc :
  is_adc batteryAdc -> is_adc sunAdc ->
  let r := getVoltage jlc batteryAdc sunAdc in
  battery_mV r = batteryAdc * 6600 / 4096 /\
  0 <= battery_mV r <= 6598 /\
  0 <= batteryAdc * 6600 / 4095 - battery_mV r <= 2 /\
  solar_mV r = sunAdc * (if jlc then 6600 else 13300) / 4096 /\
  0 <= solar_mV r <= (if jlc then 6598 else 13296) /\
  battery_percentage r = calculateBatteryPercentage (battery_mV r).
Proof.
  intros Hb Hs r. subst r. unfold getVoltage.
  cbn [battery_mV solar_mV battery_percentage].
  rewrite (scale_reading_exact batteryAdc 6600) by (auto; lia).
  assert (solar :
    (if jlc then scale_reading sunAdc 6600 else scale_reading sunAdc 13300)
    = sunAdc * (if jlc then 6600 else 13300) / 4096).
  { destruct jlc; apply scale_reading_exact; auto; lia. }
  rewrite solar. unfold is_adc in *.
  repeat split; try reflexivity; try (destruct jlc; zdiv_lia); zdiv_lia.
Qed.

Lemma getVoltage_millivolts_witness :
  battery_mV (getVoltage isJLC 2606 4095) = 4199 /\
  solar_mV (getVoltage isJLC 2606 4095) = 6598.
Proof.
  destruct (getVoltage_millivolts isJLC 2606 4095)
    as (Hb & _ & _ & Hs & _); [unfold is_adc; lia|unfold is_adc; lia|].
  split; [rewrite Hb|rewrite Hs]; vm_compute; reflexivity.
Defined.

(** X5. In terms of the raw battery reading: the percentage stored never
    decreases when the reading grows, is 0 exactly for readings up to
    1899 and 100 exactly for readings from 2607 on. *)
Theorem getVoltage_percentage jlc adc1 adc2 sun1 sun2 :
  is_adc adc1 -> is_adc adc2 ->
  let p1 := battery_percentage (getVoltage jlc adc1 sun1) in
  let p2 := battery_percentage (getVoltage jlc adc2 sun2) in
  0 <= p1 <= 100 /\
  (adc1 <= adc2 -> p1 <= p2) /\
  (p1 = 0 <-> adc1 <= 1899) /\
  (p1 = 100 <-> 2607 <= adc1).
Proof.
  intros H1 H2 p1 p2. subst p1 p2. unfold getVoltage.
  cbn [battery_percentage].
  rewrite !scale_reading_exact by (auto; lia).
  unfold is_adc in *.
  split; [apply percentage_range|]. split; [|split].
  - intros Hle. apply percentage_monotone.
    apply Z.div_le_mono; lia.
  - destruct (percentage_empty_and_full (adc1 * 6600 / 4096)) as [-> _].
    zdiv_lia.
  - destruct (percentage_empty_and_full (adc1 * 6600 / 4096)) as [_ ->].
    zdiv_lia.
Qed.

Lemma getVoltage_percentage_witness :
  battery_percentage (getVoltage isJLC 1899 0)
  <= battery_percentage (getVoltage isJLC 2607 0).
Proof.
  destruct (getVoltage_percentage isJLC 1899 2607 0 0)
    as (_ & Hmono & _); [unfold is_adc; lia|unfold is_adc; lia|].
  apply Hmono. lia.
Defined.

End AdcFacts.

(* ================================================================== *)
(** * Streams of packets: properties *)

Module PM25StreamFacts.
Import CInt CIntFacts PM25 PM25Facts PM25Stream.

(** ** The four things one byte can do *)

Lemma feed_noise d raw :
  header_found d = false -> to_uint8 raw <> PM25_HEADER ->
  pm25_feed d raw = Ok (d, None).
Proof.
  intros Hf Hne. unfold pm25_feed. rewrite Hf. cbn [negb].
  destruct (Z.eqb_spec (to_uint8 raw) PM25_HEADER); [contradiction|].
  reflexivity.
Qed.

Lemma feed_header d raw :
  decoder_inv d -> header_found d = false -> to_uint8 raw = PM25_HEADER ->
  pm25_feed d raw
  = Ok ({| pm25_concentration := pm25_concentration d;
           pm25_data_ready := pm25_data_ready d;
           rx_buffer := update_nth 0 PM25_HEADER (rx_buffer d);
           buffer_index := 1;
           header_found := true |}, None).
Proof.
  intros (Hlen & _) Hf He. unfold pm25_feed. rewrite Hf, He. cbn [negb].
  rewrite Z.eqb_refl.
  rewrite buffer_store_in_bounds by (rewrite Hlen; cbn; lia).
  reflexivity.
Qed.

Lemma feed_payload d raw :
  decoder_inv d -> header_found d = true -> buffer_index d < 3 ->
  pm25_feed d raw
  = Ok ({| pm25_concentration := pm25_concentration d;
           pm25_data_ready := pm25_data_ready d;
           rx_buffer := update_nth (Z.to_nat (buffer_index d)) (to_uint8 raw)
                                   (rx_buffer d);
           buffer_index := buffer_index d + 1;
           header_found := true |}, None).
Proof.
  intros (Hlen & _ & Hidx & _) Hf Hlt. specialize (Hidx Hf).
  unfold pm25_feed. rewrite Hf. cbn [negb].
  rewrite buffer_store_in_bounds by (rewrite Hlen; cbn; lia).
  cbn [bind]. fields.
  rewrite to_int_small by (unfold is_int; lia).
  destruct (Z.geb_spec (buffer_index d + 1) PM25_PACKET_SIZE) as [Hge|_];
    [unfold PM25_PACKET_SIZE in Hge; lia|reflexivity].
Qed.

Lemma feed_last d raw :
  decoder_inv d -> header_found d = true -> buffer_index d = 3 ->
  let buf := update_nth 3 (to_uint8 raw) (rx_buffer d) in
  pm25_feed d raw
  = if validate_packet (as_packet buf) then
      Ok ({| pm25_concentration :=
               calculate_concentration (nth 1 buf 0) (nth 2 buf 0);
             pm25_data_ready := true;
             rx_buffer := buf;
             buffer_index := 0;
             header_found := false |},
          Some (calculate_concentration (nth 1 buf 0) (nth 2 buf 0)))
    else
      Ok ({| pm25_concentration := pm25_concentration d;
             pm25_data_ready := pm25_data_ready d;
             rx_buffer := buf;
             buffer_index := 0;
             header_found := false |}, None).
Proof.
  intros (Hlen & _) Hf Hi buf. subst buf.
  unfold pm25_feed. rewrite Hf, Hi. cbn [negb].
  rewrite buffer_store_in_bounds by (rewrite Hlen; cbn; lia).
  cbn [bind]. fields. change (Z.to_nat 3) with 3%nat.
  change (to_int (3 + 1) >=? PM25_PACKET_SIZE) with true. cbn iota.
  unfold process_packet. fields.
  destruct (validate_packet _); reflexivity.
Qed.

(** What one byte does to the two globals. *)
Lemma pm25_feed_globals d raw d' frame :
  pm25_feed d raw = Ok (d', frame) ->
  match frame with
  | Some c => pm25_concentration d' = c /\ pm25_data_ready d' = true
  | None => pm25_concentration d' = pm25_concentration d /\
            pm25_data_ready d' = pm25_data_ready d
  end.
Proof.
  unfold pm25_feed.
  destruct (header_found d); cbn [negb].
  - destruct (buffer_store _ _ _) as [buf|i]; cbn [bind]; [|discriminate].
    fields. destruct (_ >=? _).
    + destruct (process_packet _) as [d2 fr] eqn:Hp.
      intros H; inversion H; subst; clear H.
      apply process_packet_frame in Hp. fields in Hp. fields.
      destruct frame as [c|].
      * destruct Hp as (_ & _ & Hc & Hr). auto.
      * destruct Hp as (_ & ->). fields. auto.
    + intros H; inversion H; subst. fields. auto.
  - destruct (_ =? _).
    + destruct (buffer_store _ _ _) as [buf|i]; cbn [bind]; [|discriminate].
      intros H; inversion H; subst. fields. auto.
    + intros H; inversion H; subst. auto.
Qed.

(** How one byte moves the fill level. *)
Lemma pm25_feed_fill d raw d' frame :
  decoder_inv d ->
  pm25_feed d raw = Ok (d', frame) ->
  4 * Z.of_nat (length (frames_of frame)) + fill d' <= fill d + 1 /\
  (header_found d = true -> buffer_index d = 3 -> header_found d' = false) /\
  (header_found d = true -> buffer_index d < 3 ->
     header_found d' = true /\ buffer_index d' = buffer_index d + 1).
Proof.
  intros Hd. pose proof Hd as (Hlen & _ & Hidx & _). unfold fill.
  destruct (header_found d) eqn:Hf.
  - specialize (Hidx eq_refl).
    destruct (Z.eq_dec (buffer_index d) 3) as [Hi|Hi].
    + pose proof (feed_last d raw Hd Hf Hi) as E. cbv zeta in E. rewrite E.
      destruct (validate_packet _); intros H; inversion H; subst;
        fields; cbn [frames_of length]; repeat split; auto; lia.
    + rewrite (feed_payload d raw Hd Hf) by lia.
      intros H; inversion H; subst. fields. cbn [frames_of length].
      repeat split; auto; lia.
  - destruct (Z.eq_dec (to_uint8 raw) PM25_HEADER) as [He|He].
    + rewrite (feed_header d raw Hd Hf He).
      intros H; inversion H; subst. fields. cbn [frames_of length].
      repeat split; try discriminate; lia.
    + rewrite (feed_noise d raw Hf He).
      intros H; inversion H; subst. rewrite Hf. cbn [frames_of length].
      repeat split; try discriminate; lia.
Qed.

(** ** Whole streams *)

Lemma pm25_update_app a : forall d b,
  pm25_update d (a ++ b)
  = (r <- pm25_update d a ;;
     r' <- pm25_update (fst r) b ;;
     Ok (fst r', snd r ++ snd r')).
Proof.
  induction a as [|raw a IH]; intros d b; cbn [app pm25_update bind fst snd].
  - destruct (pm25_update d b) as [[d' fr]|i]; reflexivity.
  - destruct (pm25_feed d raw) as [[d1 fr1]|i]; cbn [bind fst snd];
      [|reflexivity].
    rewrite IH.
    destruct (pm25_update d1 a) as [[d2 fr2]|i]; cbn [bind fst snd];
      [|reflexivity].
    destruct (pm25_update d2 b) as [[d3 fr3]|i]; cbn [bind fst snd];
      [|reflexivity].
    rewrite app_assoc. reflexivity.
Qed.

Lemma pm25_update_noise pending : forall d,
  header_found d = false ->
  Forall (fun raw => to_uint8 raw <> PM25_HEADER) pending ->
  pm25_update d pending = Ok (d, []).
Proof.
  induction pending as [|raw rest IH]; intros d Hf Hall;
    cbn [pm25_update]; [reflexivity|].
  inversion Hall; subst.
  rewrite feed_noise by assumption. cbn [bind fst snd].
  rewrite IH by assumption. reflexivity.
Qed.

Lemma last_default (l : list Z) a x y : last (a :: l) x = last (a :: l) y.
Proof.
  revert a. induction l as [|b l IH]; intros a; [reflexivity|].
  change (last (b :: l) x = last (b :: l) y). apply IH.
Qed.

Lemma last_cons (l : list Z) c x : last (c :: l) x = last l c.
Proof.
  destruct l as [|b l]; [reflexivity|].
  change (last (b :: l) x = last (b :: l) c). apply last_default.
Qed.

Lemma pm25_update_globals pending : forall d d' frames,
  pm25_update d pending = Ok (d', frames) ->
  pm25_concentration d' = last frames (pm25_concentration d) /\
  pm25_data_ready d'
  = (pm25_data_ready d || negb (length frames =? 0)%nat).
Proof.
  induction pending as [|raw rest IH]; intros d d' frames;
    cbn [pm25_update].
  - intros H; inversion H; subst. cbn. rewrite orb_false_r. auto.
  - destruct (pm25_feed d raw) as [[d1 fr]|i] eqn:Hfeed; cbn [bind fst snd];
      [|discriminate].
    destruct (pm25_update d1 rest) as [[d2 frs]|i] eqn:Hrest;
      cbn [bind fst snd]; [|discriminate].
    intros H; inversion H; subst; clear H.
    apply pm25_feed_globals in Hfeed.
    destruct (IH _ _ _ Hrest) as [Hc Hr]. rewrite Hc, Hr.
    destruct fr as [c|]; cbn [frames_of app].
    + destruct Hfeed as [-> ->]. rewrite last_cons.
      cbn. rewrite orb_true_r. auto.
    + destruct Hfeed as [-> ->]. auto.
Qed.

Lemma pm25_update_fill pending : forall d d' frames,
  decoder_inv d ->
  pm25_update d pending = Ok (d', frames) ->
  4 * Z.of_nat (length frames) + fill d'
  <= fill d + Z.of_nat (length pending).
Proof.
  induction pending as [|raw rest IH]; intros d d' frames Hd;
    cbn [pm25_update].
  - intros H; inversion H; subst. cbn [length]. lia.
  - destruct (pm25_feed_inv d raw Hd) as (d1 & fr & Hfeed & Hd1).
    rewrite Hfeed. cbn [bind fst snd].
    destruct (pm25_update d1 rest) as [[d2 frs]|i] eqn:Hrest;
      cbn [bind fst snd]; [|discriminate].
    intros H; inversion H; subst; clear H.
    pose proof (pm25_feed_fill _ _ _ _ Hd Hfeed) as (Hstep & _).
    pose proof (IH _ _ _ Hd1 Hrest) as Hrec.
    rewrite length_app. cbn [length]. lia.
Qed.

(** ** Packets in, concentrations out *)

Lemma checksum_is_noise dataH dataL :
  to_uint8 (Z.land (PM25_HEADER + dataH + dataL) 0x7F) <> PM25_HEADER.
Proof.
  rewrite land_0x7F. unfold to_uint8, PM25_HEADER. zdiv_lia.
Qed.

Lemma checksum_small dataH dataL :
  to_uint8 (Z.land (PM25_HEADER + dataH + dataL) 0x7F)
  = Z.land (PM25_HEADER + dataH + dataL) 0x7F.
Proof.
  apply to_uint8_small. rewrite land_0x7F. zdiv_lia.
Qed.

Ltac bytes_ok :=
  repeat (apply Forall_cons; [assumption|]); try apply Forall_nil.

Lemma decode_from_search d hi lo :
  decoder_inv d -> header_found d = false ->
  is_uint8 hi -> is_uint8 lo ->
  pm25_update d (encode_frame hi lo)
  = Ok (accepted hi lo, [hi * 128 + lo]).
Proof.
  intros Hd Hf HH HL. pose proof Hd as (Hlen & Hbytes & _).
  destruct d as [conc ready buf idx hf]. fields in Hlen. fields in Hf.
  fields in Hbytes. subst hf.
  destruct buf as [|b0 [|b1 [|b2 [|b3 [|? ?]]]]]; try discriminate Hlen.
  unfold encode_frame, pm25_update.
  rewrite feed_header by (auto; reflexivity).
  cbn [bind fst snd update_nth frames_of app].
  assert (forall c r b i, length b = 4%nat -> Forall is_uint8 b ->
                          1 <= i <= 3 -> nth 0 b 0 = PM25_HEADER ->
                          decoder_inv {| pm25_concentration := c;
                                         pm25_data_ready := r;
                                         rx_buffer := b; buffer_index := i;
                                         header_found := true |}) as Hinv.
  { intros. unfold decoder_inv. fields. auto. }
  assert (is_uint8 PM25_HEADER) as HA by (unfold is_uint8, PM25_HEADER; lia).
  inversion Hbytes as [|? ? Hb0 Hb]; subst.
  inversion Hb as [|? ? Hb1 Hb']; subst.
  inversion Hb' as [|? ? Hb2 Hb'']; subst.
  inversion Hb'' as [|? ? Hb3 _]; subst.
  rewrite feed_payload;
    [|apply Hinv; [reflexivity|bytes_ok|lia|reflexivity]
     |reflexivity|cbn; lia].
  fields. change (Z.to_nat 1) with 1%nat.
  cbn [bind fst snd update_nth frames_of app].
  rewrite (to_uint8_small hi) by exact HH.
  rewrite feed_payload;
    [|apply Hinv; [reflexivity|bytes_ok|lia|reflexivity]
     |reflexivity|cbn; lia].
  fields. change (Z.to_nat (1 + 1)) with 2%nat.
  cbn [bind fst snd update_nth frames_of app].
  rewrite (to_uint8_small lo) by exact HL.
  pose proof (feed_last
                {| pm25_concentration := conc; pm25_data_ready := ready;
                   rx_buffer := [PM25_HEADER; hi; lo; b3];
                   buffer_index := 1 + 1 + 1; header_found := true |}
                (Z.land (PM25_HEADER + hi + lo) 0x7F)) as E.
  cbv zeta in E. rewrite E;
    [|apply Hinv; [reflexivity|bytes_ok|lia|reflexivity]
     |reflexivity|reflexivity].
  clear E. fields. cbn [update_nth nth]. rewrite checksum_small.
  unfold validate_packet. cbn [as_packet nth header dataH dataL checksum].
  rewrite checksum_small, Z.eqb_refl.
  cbn [bind fst snd frames_of app].
  unfold calculate_concentration, is_uint8 in *.
  rewrite to_uint16_small by lia. reflexivity.
Qed.

(** X6. Decoding inverts the packet layout: waiting for a header, the
    decoder fed the four bytes of a well-formed packet, whatever its two
    data bytes (a data byte may even equal the header value), stores
    exactly one concentration, dataH * 128 + dataL, sets the data-ready
    flag and waits for a header again. *)
Theorem packet_round_trip d dataH dataL :
  decoder_inv d -> header_found d = false ->
  is_uint8 dataH -> is_uint8 dataL ->
  exists d',
    pm25_update d (encode_frame dataH dataL)
    = Ok (d', [dataH * 128 + dataL]) /\
    pm25_get_value d' = dataH * 128 + dataL /\
    pm25_data_ready d' = true /\
    header_found d' = false /\ buffer_index d' = 0 /\
    rx_buffer d' = encode_frame dataH dataL.
Proof.
  intros Hd Hf HH HL. exists (accepted dataH dataL).
  split; [apply decode_from_search; assumption|]. repeat split.
Qed.

Lemma packet_round_trip_witness :
  exists d',
    pm25_update (pm25_init boot) (encode_frame 0xA5 0x7F)
    = Ok (d', [0xA5 * 128 + 0x7F]) /\
    pm25_get_value d' = 0xA5 * 128 + 0x7F.
Proof.
  destruct (packet_round_trip (pm25_init boot) 0xA5 0x7F)
    as (d' & Hrun & Hval & _).
  - apply init_inv.
  - reflexivity.
  - unfold is_uint8. lia.
  - unfold is_uint8. lia.
  - exists d'. split; assumption.
Defined.

(** X7. While the decoder waits for a header, bytes other than 0xA5 are
    dropped: any run of them leaves every variable of the decoder as it
    was and stores nothing. *)
Theorem noise_is_dropped d pending :
  header_found d = false ->
  Forall (fun raw => to_uint8 raw <> PM25_HEADER) pending ->
  pm25_update d pending = Ok (d, []).
Proof. intros Hf Hall. apply pm25_update_noise; assumption. Qed.

Lemma noise_is_dropped_witness :
  pm25_update (pm25_init boot) [0x00; 0x7F; 0xA4; 0xA6; 0xFF]
  = Ok (pm25_init boot, []).
Proof.
  apply (noise_is_dropped (pm25_init boot)); [reflexivity|].
  repeat constructor; vm_compute; discriminate.
Defined.

(** X8. How the bytes are split between the calls of [pm25_update] does
    not matter: the task that polls the port ends in the same state and
    has stored the same concentrations, in the same order, as one call
    on all the bytes together. *)
Theorem polling_is_chunk_independent polls : forall d,
  pm25DataTask d polls = pm25_update d (concat polls).
Proof.
  induction polls as [|pending rest IH]; intros d;
    cbn [pm25DataTask concat]; [reflexivity|].
  rewrite pm25_update_app.
  destruct (pm25_update d pending) as [[d1 fr1]|i]; cbn [bind fst snd];
    [|reflexivity].
  rewrite IH. reflexivity.
Qed.

(** X9. After a call of [pm25_update] the concentration kept is the last
    one stored during the call, or the previous one when none was
    stored; the data-ready flag is set when it was set before or when
    at least one concentration was stored, and is never cleared by the
    call. *)
Theorem update_keeps_last_concentration d pending d' frames :
  pm25_update d pending = Ok (d', frames) ->
  pm25_get_value d' = last frames (pm25_get_value d) /\
  pm25_data_ready d'
  = (pm25_data_ready d || negb (length frames =? 0)%nat).
Proof. apply pm25_update_globals. Qed.

Lemma update_keeps_last_concentration_witness :
  exists d',
    pm25_update (pm25_init boot)
      (encode_frame 1 44 ++ encode_frame 0 35) = Ok (d', [172; 35]) /\
    pm25_get_value d' = 35 /\ pm25_data_ready d' = true.
Proof.
  eexists. split; [vm_compute; reflexivity|].
  refine (update_keeps_last_concentration (pm25_init boot)
            (encode_frame 1 44 ++ encode_frame 0 35) _ [172; 35] _).
  vm_compute. reflexivity.
Defined.

(** X10. The decoder never stores more than one concentration per four
    bytes: four times the number stored during a call, plus the bytes
    of an unfinished packet held at the end, is at most the number of
    bytes fed plus the bytes held at the start. *)
Theorem one_frame_per_four_bytes d pending d' frames :
  decoder_inv d ->
  pm25_update d pending = Ok (d', frames) ->
  4 * Z.of_nat (length frames) + fill d'
  <= fill d + Z.of_nat (length pending) /\
  0 <= fill d' <= 3.
Proof.
  intros Hd Hrun. split; [eapply pm25_update_fill; eassumption|].
  destruct (pm25_update_inv pending d Hd) as (d2 & fr & Hrun' & Hd2).
  rewrite Hrun in Hrun'. inversion Hrun'; subst.
  destruct Hd2 as (_ & _ & Hidx & _). unfold fill.
  destruct (header_found d2); [specialize (Hidx eq_refl)|]; lia.
Qed.

Lemma one_frame_per_four_bytes_witness :
  4 * Z.of_nat (length [172]) + 2 <= 0 + 6.
Proof.
  pose (d' := {| pm25_concentration := 172; pm25_data_ready := true;
                 rx_buffer := [0xA5; 0x01; 0x2C; 0x52];
                 buffer_index := 2; header_found := true |}).
  assert (pm25_update (pm25_init boot) (encode_frame 1 44 ++ [0xA5; 0x01])
          = Ok (d', [172])) as Hrun by (vm_compute; reflexivity).
  exact (proj1 (one_frame_per_four_bytes _ _ _ _ init_inv Hrun)).
Defined.

(** X11. The data-ready flag is read once: after a call of
    [pm25_update] that stored at least one concentration,
    [pm25_is_data_ready] answers true and clears the flag without
    touching the decoder or the value; from then on, as long as the
    calls of [pm25_update] store nothing, it answers false and
    [pm25_get_value] keeps returning the last concentration stored. *)
Theorem data_ready_is_read_once d pending d' frames :
  pm25_update d pending = Ok (d', frames) ->
  frames <> [] ->
  let d1 := snd (pm25_is_data_ready d') in
  fst (pm25_is_data_ready d') = true /\
  pm25_get_value d1 = last frames 0 /\
  rx_buffer d1 = rx_buffer d' /\ buffer_index d1 = buffer_index d' /\
  header_found d1 = header_found d' /\
  fst (pm25_is_data_ready d1) = false /\
  forall pending2 d2,
    pm25_update d1 pending2 = Ok (d2, []) ->
    fst (pm25_is_data_ready d2) = false /\
    pm25_get_value d2 = last frames 0.
Proof.
  intros Hrun Hne d1. subst d1.
  destruct (pm25_update_globals _ _ _ _ Hrun) as [Hc Hr].
  destruct frames as [|c frames]; [contradiction|].
  cbn [pm25_is_data_ready fst snd]. unfold pm25_get_value. fields.
  rewrite Hr, Hc, orb_true_r.
  rewrite (last_default frames c (pm25_concentration d) 0).
  do 6 (split; [reflexivity|]).
  intros pending2 d2 Hrun2.
  destruct (pm25_update_globals _ _ _ _ Hrun2) as [Hc2 Hr2].
  fields in Hc2. fields in Hr2. cbn [last] in Hc2.
  split; [exact Hr2|exact Hc2].
Qed.

Lemma data_ready_is_read_once_witness :
  exists d',
    pm25_update (pm25_init boot) (encode_frame 1 44) = Ok (d', [172]) /\
    fst (pm25_is_data_ready d') = true /\
    fst (pm25_is_data_ready (snd (pm25_is_data_ready d'))) = false.
Proof.
  exists (accepted 1 44).
  assert (pm25_update (pm25_init boot) (encode_frame 1 44)
          = Ok (accepted 1 44, [172])) as Hrun by (vm_compute; reflexivity).
  destruct (data_ready_is_read_once _ _ _ _ Hrun)
    as (H1 & _ & _ & _ & _ & H2 & _); [discriminate|].
  split; [exact Hrun|]. split; [exact H1|exact H2].
Defined.

(** ** Resynchronisation *)

(** The bytes that fill up the packet in progress bring the decoder
    back to the header search, with at most one concentration stored. *)
Lemma complete_packet pre : forall d,
  decoder_inv d -> header_found d = true ->
  Z.of_nat (length pre) = 4 - buffer_index d ->
  exists d' frames,
    pm25_update d pre = Ok (d', frames) /\
    header_found d' = false /\ decoder_inv d' /\
    (length frames <= 1)%nat.
Proof.
  induction pre as [|raw rest IH]; intros d Hd Hf Hlen.
  - destruct Hd as (_ & _ & Hidx & _). specialize (Hidx Hf).
    cbn [length] in Hlen. lia.
  - cbn [pm25_update].
    destruct (pm25_feed_inv d raw Hd) as (d1 & fr & Hfeed & Hd1).
    rewrite Hfeed. cbn [bind fst snd].
    pose proof (pm25_feed_fill _ _ _ _ Hd Hfeed) as (Hfill & Hlast & Hmid).
    pose proof Hd as (_ & _ & Hidx & _). specialize (Hidx Hf).
    cbn [length] in Hlen.
    destruct (Z.eq_dec (buffer_index d) 3) as [Hi|Hi].
    + destruct rest; [|cbn [length] in Hlen; lia].
      cbn [pm25_update bind fst snd]. rewrite app_nil_r.
      exists d1, (frames_of fr).
      split; [reflexivity|]. split; [apply Hlast; assumption|].
      split; [exact Hd1|]. destruct fr; cbn; lia.
    + destruct (Hmid Hf ltac:(lia)) as [Hf1 Hi1].
      unfold fill in Hfill. rewrite Hf, Hf1, Hi1 in Hfill.
      assert (frames_of fr = []) as ->
        by (destruct fr; cbn [frames_of length] in *; [lia|reflexivity]).
      destruct (IH d1 Hd1 Hf1 ltac:(lia)) as (d' & frames & Hrun & H').
      rewrite Hrun. cbn [bind fst snd app].
      exists d', frames. auto.
Qed.

(** X12. The decoder finds its place again within one packet: whatever
    it holds (waiting for a header, or one, two or three bytes into a
    packet), a well-formed packet whose data bytes are below 128 leaves
    it waiting for a header, having stored at most one concentration;
    so the well-formed packet that comes next, whatever its data bytes,
    is decoded and its concentration is the one kept. *)
Theorem resynchronises_within_one_packet d hi lo hi' lo' :
  decoder_inv d ->
  0 <= hi <= 127 -> 0 <= lo <= 127 ->
  is_uint8 hi' -> is_uint8 lo' ->
  exists d1 frames,
    pm25_update d (encode_frame hi lo) = Ok (d1, frames) /\
    header_found d1 = false /\ (length frames <= 1)%nat /\
    pm25_update d (encode_frame hi lo ++ encode_frame hi' lo')
    = Ok (accepted hi' lo', frames ++ [hi' * 128 + lo']).
Proof.
  intros Hd Hhi Hlo Hhi' Hlo'.
  assert (exists d1 frames,
            pm25_update d (encode_frame hi lo) = Ok (d1, frames) /\
            header_found d1 = false /\ decoder_inv d1 /\
            (length frames <= 1)%nat) as (d1 & frames & Hrun & Hf1 & Hd1 & Hn).
  { destruct (header_found d) eqn:Hf.
    - pose proof Hd as (_ & _ & Hidx & _). specialize (Hidx Hf).
      assert (to_uint8 hi <> PM25_HEADER) as Nhi
        by (rewrite to_uint8_small by lia; unfold PM25_HEADER; lia).
      assert (to_uint8 lo <> PM25_HEADER) as Nlo
        by (rewrite to_uint8_small by lia; unfold PM25_HEADER; lia).
      pose proof (checksum_is_noise hi lo) as Nck.
      assert (exists pre post,
                encode_frame hi lo = pre ++ post /\
                Z.of_nat (length pre) = 4 - buffer_index d /\
                Forall (fun raw => to_uint8 raw <> PM25_HEADER) post)
        as (pre & post & Hsplit & Hlen & Hnoise).
      { unfold encode_frame.
        assert (buffer_index d = 1 \/ buffer_index d = 2 \/
                buffer_index d = 3) as [E|[E|E]] by lia; rewrite E.
        - exists [PM25_HEADER; hi; lo],
                 [Z.land (PM25_HEADER + hi + lo) 0x7F].
          repeat split; auto.
        - exists [PM25_HEADER; hi],
                 [lo; Z.land (PM25_HEADER + hi + lo) 0x7F].
          repeat split; auto.
        - exists [PM25_HEADER],
                 [hi; lo; Z.land (PM25_HEADER + hi + lo) 0x7F].
          repeat split; auto. }
      destruct (complete_packet pre d Hd Hf Hlen)
        as (d1 & frames & Hrun & Hf1 & Hd1 & Hn).
      exists d1, frames. rewrite Hsplit, pm25_update_app, Hrun.
      cbn [bind fst snd].
      rewrite (pm25_update_noise post d1 Hf1 Hnoise).
      cbn [bind fst snd]. rewrite app_nil_r. auto.
    - exists (accepted hi lo), [hi * 128 + lo].
      assert (pm25_update d (encode_frame hi lo)
              = Ok (accepted hi lo, [hi * 128 + lo])) as Hrun
        by (apply decode_from_search; auto; unfold is_uint8; lia).
      split; [exact Hrun|]. split; [reflexivity|]. split; [|cbn; lia].
      destruct (pm25_update_inv (encode_frame hi lo) d Hd)
        as (d2 & fr & Hrun' & Hd2).
      rewrite Hrun in Hrun'. inversion Hrun'; subst. exact Hd2. }
  exists d1, frames. split; [exact Hrun|]. split; [exact Hf1|].
  split; [exact Hn|].
  rewrite pm25_update_app, Hrun. cbn [bind fst snd].
  rewrite (decode_from_search d1 hi' lo' Hd1 Hf1 Hhi' Hlo').
  reflexivity.
Qed.

Lemma resynchronises_within_one_packet_witness :
  exists d1 frames,
    pm25_update {| pm25_concentration := 7; pm25_data_ready := false;
                   rx_buffer := [0xA5; 0x10; 0; 0];
                   buffer_index := 2; header_found := true |}
      (encode_frame 1 44 ++ encode_frame 2 3)
    = Ok (d1, frames ++ [2 * 128 + 3]).
Proof.
  destruct (resynchronises_within_one_packet
              {| pm25_concentration := 7; pm25_data_ready := false;
                 rx_buffer := [0xA5; 0x10; 0; 0];
                 buffer_index := 2; header_found := true |} 1 44 2 3)
    as (d1 & frames & _ & _ & _ & Hrun).
  - unfold decoder_inv, is_uint8; cbn.
    repeat split; try lia; repeat constructor; lia.
  - lia.
  - lia.
  - unfold is_uint8; lia.
  - unfold is_uint8; lia.
  - exists (accepted 2 3), frames. exact Hrun.
Defined.

End PM25StreamFacts.

(* ================================================================== *)
(** * Motion latch and brightness engine: further properties *)

Module BrightnessCurveFacts.
Import CInt CIntFacts Brightness BrightnessFacts BrightnessCurve.

Section Build.
Context {fp : F32.Contraction}.

(** ** The motion latch at every delay *)

(** X13. After a trigger at [t0], from the sensor or from key 1, a tick
    that runs [dt] milliseconds later, for any delay the 32-bit clock
    can measure, finds the motion flag set exactly when [dt] is at most
    5000: a tick at exactly 5000 ms still sees motion. *)
Theorem motion_latch_at_every_delay s t0 dt :
  0 <= dt < 4294967296 ->
  isMove (updateBrightness (motionISR s t0) (t0 + dt)) = (dt <=? 5000) /\
  isMove (updateBrightness (key1ISR s t0) (t0 + dt)) = (dt <=? 5000).
Proof.
  intros H. split; apply latch_after_trigger; assumption.
Qed.

(** ** The lux table *)

(** X14. Readings that are not an illuminance fall into the darkest
    bracket: not-a-number, minus infinity, both zeros and every
    negative number (the light sensor reports failures as negative
    values) give base 110; plus infinity gives base 0. *)
Theorem base_brightness_of_odd_readings :
  calculateBaseBrightness S754_nan = 110 /\
  calculateBaseBrightness (S754_infinity true) = 110 /\
  calculateBaseBrightness (S754_infinity false) = 0 /\
  (forall sign, calculateBaseBrightness (S754_zero sign) = 110) /\
  (forall m e, calculateBaseBrightness (S754_finite true m e) = 110).
Proof.
  repeat split; try (intros [|]); reflexivity.
Qed.

Lemma digits2_pos_bounds m :
  2 ^ (Zpos (digits2_pos m) - 1) <= Zpos m < 2 ^ Zpos (digits2_pos m).
Proof.
  induction m as [m IH|m IH|]; cbn [digits2_pos].
  - rewrite Pos2Z.inj_succ, Z.pow_succ_r by lia.
    replace (Z.succ (Zpos (digits2_pos m)) - 1)
      with (Z.succ (Zpos (digits2_pos m) - 1)) by lia.
    rewrite Z.pow_succ_r by lia. lia.
  - rewrite Pos2Z.inj_succ, Z.pow_succ_r by lia.
    replace (Z.succ (Zpos (digits2_pos m)) - 1)
      with (Z.succ (Zpos (digits2_pos m) - 1)) by lia.
    rewrite Z.pow_succ_r by lia. lia.
  - cbn. lia.
Qed.

(** A valid single-precision mantissa has 24 bits, or fewer at the
    lowest exponent. *)
Lemma valid_mantissa m e :
  valid_binary F32.prec F32.emax (S754_finite false m e) = true ->
  -149 <= e /\ Zpos m < 2 ^ 24 /\ (-149 < e -> 2 ^ 23 <= Zpos m).
Proof.
  cbn [valid_binary]. unfold bounded, canonical_mantissa, fexp, emin,
    F32.prec, F32.emax.
  intros H. apply andb_prop in H. destruct H as [H _].
  apply Z.eqb_eq in H.
  pose proof (digits2_pos_bounds m) as [Hlo Hhi].
  assert (Zpos (digits2_pos m) = 24 \/
          (Zpos (digits2_pos m) < 24 /\ e = -149)) as [E|[E ->]] by lia.
  - rewrite E in Hlo, Hhi. change (24 - 1) with 23 in Hlo. lia.
  - split; [lia|]. split; [|lia].
    assert (2 ^ Zpos (digits2_pos m) <= 2 ^ 24)
      by (apply Z.pow_le_mono_r; lia).
    lia.
Qed.

Lemma scaled_leb a b p : 0 < p -> (a * p <=? b * p) = (a <=? b).
Proof.
  intros Hp.
  destruct (Z.leb_spec a b), (Z.leb_spec (a * p) (b * p));
    try reflexivity; nia.
Qed.

(** Comparing with a normal number compares the exact values. *)
Lemma geb_exact m e mT eT :
  valid_binary F32.prec F32.emax (S754_finite false m e) = true ->
  2 ^ 23 <= Zpos mT < 2 ^ 24 -> -149 <= eT ->
  F32.geb (S754_finite false m e) (S754_finite false mT eT)
  = (Zpos mT * 2 ^ (eT + 149) <=? Zpos m * 2 ^ (e + 149)).
Proof.
  intros Hv HT HeT. destruct (valid_mantissa m e Hv) as (He & Hhi & Hlo).
  change (2 ^ 23) with 8388608 in *. change (2 ^ 24) with 16777216 in *.
  unfold F32.geb, SFleb, SFcompare.
  destruct (Z.compare_spec eT e) as [E|E|E].
  - subst eT. rewrite Pos.compare_cont_spec. cbn [Pos.switch_Eq].
    rewrite scaled_leb by (apply Z.pow_pos_nonneg; lia).
    destruct (Pos.compare_spec mT m) as [E|E|E];
      destruct (Z.leb_spec (Zpos mT) (Zpos m));
      try reflexivity; subst; lia.
  - specialize (Hlo ltac:(lia)).
    replace (e + 149) with (Z.succ (e - eT - 1) + (eT + 149)) by lia.
    rewrite (Z.pow_add_r 2 (Z.succ (e - eT - 1)) (eT + 149)) by lia.
    rewrite (Z.pow_succ_r 2 (e - eT - 1)) by lia.
    assert (0 < 2 ^ (e - eT - 1)) by (apply Z.pow_pos_nonneg; lia).
    rewrite Z.mul_assoc.
    rewrite scaled_leb by (apply Z.pow_pos_nonneg; lia).
    destruct (Z.leb_spec (Zpos mT)
                (Zpos m * (2 * 2 ^ (e - eT - 1)))); [reflexivity|nia].
  - replace (eT + 149) with (Z.succ (eT - e - 1) + (e + 149)) by lia.
    rewrite (Z.pow_add_r 2 (Z.succ (eT - e - 1)) (e + 149)) by lia.
    rewrite (Z.pow_succ_r 2 (eT - e - 1)) by lia.
    assert (0 < 2 ^ (eT - e - 1)) by (apply Z.pow_pos_nonneg; lia).
    rewrite Z.mul_assoc.
    rewrite scaled_leb by (apply Z.pow_pos_nonneg; lia).
    destruct (Z.leb_spec (Zpos mT * (2 * 2 ^ (eT - e - 1)))
                (Zpos m)); [nia|reflexivity].
Qed.

(** X15. On every valid single-precision number that is zero or finite
    the comparisons of [calculateBaseBrightness] are exact: the base is
    0 from 500 lux on, 50 from 300 lux up to 500, 80 from 100 lux up to
    300, and 110 below 100 lux, each lower bound included. *)
Theorem base_brightness_is_exact Lux :
  valid_binary F32.prec F32.emax Lux = true ->
  (exists sign, Lux = S754_zero sign) \/
  (exists sign m e, Lux = S754_finite sign m e) ->
  calculateBaseBrightness Lux = baseFor (scaled Lux).
Proof.
  intros Hv [[sign ->]|(sign & m & e & ->)].
  - reflexivity.
  - destruct sign.
    + cbn [scaled]. unfold baseFor.
      assert (0 < 2 ^ (e + 149) \/ 2 ^ (e + 149) = 0) as Hp.
      { pose proof (Z.pow_nonneg 2 (e + 149)). lia. }
      repeat match goal with
             | |- context [?a <=? ?b] => destruct (Z.leb_spec a b)
             end; try reflexivity;
        change (2 ^ 149) with
          713623846352979940529142984724747568191373312 in *; nia.
    + unfold calculateBaseBrightness, baseFor, scaled.
      change (F32.of_int LUX_THRESHOLD_HIGH)
        with (S754_finite false 16384000 (-15)).
      change (F32.of_int LUX_THRESHOLD_MID)
        with (S754_finite false 9830400 (-15)).
      change (F32.of_int LUX_THRESHOLD_LOW)
        with (S754_finite false 13107200 (-17)).
      rewrite !geb_exact by (auto; cbn; lia).
      change (Zpos 16384000 * 2 ^ (-15 + 149)) with (500 * 2 ^ 149).
      change (Zpos 9830400 * 2 ^ (-15 + 149)) with (300 * 2 ^ 149).
      change (Zpos 13107200 * 2 ^ (-17 + 149)) with (100 * 2 ^ 149).
      rewrite Z.mul_1_l. reflexivity.
Qed.

Lemma base_brightness_is_exact_witness :
  calculateBaseBrightness (F32.of_int 300) = 50 /\
  calculateBaseBrightness (S754_finite false 9830399 (-15)) = 80.
Proof.
  split.
  - rewrite (base_brightness_is_exact (F32.of_int 300)).
    + vm_compute. reflexivity.
    + vm_compute. reflexivity.
    + right. exists false, 9830400%positive, (-15). reflexivity.
  - rewrite (base_brightness_is_exact (S754_finite false 9830399 (-15))).
    + vm_compute. reflexivity.
    + vm_compute. reflexivity.
    + right. exists false, 9830399%positive, (-15). reflexivity.
Defined.

(** ** Never past the target *)

Lemma advanceCurve_on_course s :
  state_inv s ->
  (currentBrightness s < targetBrightness s -> isRising s = true) ->
  (targetBrightness s < currentBrightness s -> isFalling s = true) ->
  on_course (advanceCurve s).
Proof.
  intros Hinv Hup Hdown.
  destruct (isRising s && (currentBrightness s <? targetBrightness s))
    eqn:Hbr.
  - apply andb_prop in Hbr. destruct Hbr as [Hris Hlt].
    apply Z.ltb_lt in Hlt.
    destruct (advanceCurve_rising s Hinv Hris Hlt) as (Hd & Hk & ->).
    destruct (Z.leb_spec (brightnessStep s + 1) 40).
    + destruct (rising_offset_exact
                  (targetBrightness s - startBrightness s)
                  (brightnessStep s + 1)) as (_ & _ & Hoff); [lia|lia|].
      unfold on_course. state_fields.
      repeat split; try lia; discriminate.
    + unfold on_course. state_fields.
      repeat split; try lia; discriminate.
  - destruct (isFalling s && (currentBrightness s >? targetBrightness s))
      eqn:Hbf.
    + apply andb_prop in Hbf. destruct Hbf as [Hfal Hgt].
      apply Z.gtb_lt in Hgt.
      destruct (advanceCurve_falling s Hinv Hfal Hgt) as (Hd & Hk & ->).
      destruct (Z.leb_spec (brightnessStep s + 1) 60).
      * destruct (falling_offset_exact
                    (startBrightness s - targetBrightness s)
                    (brightnessStep s + 1)) as (_ & Hoff); [lia|lia|].
        unfold on_course. state_fields.
        repeat split; try lia; discriminate.
      * unfold on_course. state_fields.
        repeat split; try lia; discriminate.
    + unfold advanceCurve. rewrite Hbr, Hbf.
      unfold on_course. state_fields.
      split; [discriminate|]. split; [discriminate|]. intros _ _.
      destruct (Z.lt_trichotomy (currentBrightness s) (targetBrightness s))
        as [Hlt|[Heq|Hgt]]; [|assumption|].
      * rewrite (Hup Hlt) in Hbr. cbn [andb] in Hbr.
        apply Z.ltb_ge in Hbr. lia.
      * rewrite (Hdown Hgt) in Hbf. cbn [andb] in Hbf.
        rewrite Z.gtb_ltb in Hbf. apply Z.ltb_ge in Hbf. lia.
Qed.

Lemma updateBrightness_on_course s now :
  state_inv s -> on_course (updateBrightness s now).
Proof.
  intros Hinv. unfold updateBrightness.
  pose proof (startTransition_direction
                (selectTarget (checkMotionTimeout s now)))
    as (_ & _ & Hup & Hdown).
  apply advanceCurve_on_course.
  - apply startTransition_inv, selectTarget_inv, checkMotionTimeout_inv,
      Hinv.
  - intros H. apply Hup, H.
  - intros H. apply Hdown, H.
Qed.

Lemma reachable_on_course s : reachable s -> on_course s.
Proof.
  intros [es ->]. unfold run.
  induction es as [|e es IH] using rev_ind.
  - unfold on_course; cbn. repeat split; try discriminate; lia.
  - rewrite fold_left_app. cbn [fold_left].
    assert (state_inv (fold_left step es (brightnessInit boot))) as Hinv
      by (apply (run_inv es), init_state_inv).
    destruct e; cbn [step]; try exact IH.
    unfold calculatePerceivedBrightness. apply updateBrightness_on_course.
    destruct Hinv as (Hc & Ht & Hb & Hs & Hstep & Hr & Hf).
    unfold state_inv. state_fields.
    pose proof (calculateBaseBrightness_uint8 Lux). auto 10.
Qed.

(** X16. Whatever the interrupts and ticks, the brightness never passes
    its target: while rising it lies between the start of the
    transition and the target, while falling between the target and the
    start, and at rest it is the target; it always fits the eight bits
    of the LED value. *)
Theorem brightness_never_overshoots s :
  reachable s ->
  on_course s /\
  0 <= currentBrightness s <= 255 /\
  Z.min (startBrightness s) (targetBrightness s) <= currentBrightness s
  <= Z.max (startBrightness s) (targetBrightness s).
Proof.
  intros Hreach.
  pose proof (reachable_on_course s Hreach) as Hc.
  pose proof (reachable_inv s Hreach) as (Hcur & _).
  split; [exact Hc|]. split; [exact Hcur|].
  destruct Hc as (Hr & Hf & Hi).
  destruct (isRising s); [specialize (Hr eq_refl); lia|].
  destruct (isFalling s); [specialize (Hf eq_refl); lia|].
  specialize (Hi eq_refl eq_refl). lia.
Qed.

(** ** The target *)

Lemma advanceCurve_keeps s :
  isMove (advanceCurve s) = isMove s /\
  targetBrightness (advanceCurve s) = targetBrightness s /\
  baseBrightness (advanceCurve s) = baseBrightness s /\
  lastMotionTime (advanceCurve s) = lastMotionTime s.
Proof.
  unfold advanceCurve.
  repeat match goal with
         | |- context [if ?b then _ else _] => destruct b
         end; repeat split.
Qed.

Lemma startTransition_keeps s :
  isMove (startTransition s) = isMove s /\
  targetBrightness (startTransition s) = targetBrightness s /\
  baseBrightness (startTransition s) = baseBrightness s /\
  lastMotionTime (startTransition s) = lastMotionTime s /\
  currentBrightness (startTransition s) = currentBrightness s.
Proof.
  unfold startTransition.
  repeat match goal with
         | |- context [if ?b then _ else _] => destruct b
         end; repeat split.
Qed.

(** X17. After every tick the base is the entry of the lux table, one
    of 0, 50, 80 and 110, and the target is 255 when the base is not 0
    and the motion flag is still set after the timeout check, and the
    base otherwise: in bright light (base 0) motion does not switch the
    light on. *)
Theorem target_after_tick s Lux now :
  let s' := calculatePerceivedBrightness s Lux now in
  baseBrightness s' = calculateBaseBrightness Lux /\
  In (baseBrightness s') [0; 50; 80; 110] /\
  isMove s' = isMove (checkMotionTimeout s now) /\
  targetBrightness s'
  = (if (0 <? baseBrightness s') && isMove s' then 255
     else baseBrightness s') /\
  In (targetBrightness s') [0; 50; 80; 110; 255] /\
  (baseBrightness s' = 0 -> targetBrightness s' = 0).
Proof.
  intros s'. subst s'.
  unfold calculatePerceivedBrightness, updateBrightness.
  set (s0 := set_base s (calculateBaseBrightness Lux)).
  destruct (advanceCurve_keeps
              (startTransition (selectTarget (checkMotionTimeout s0 now))))
    as (-> & -> & -> & _).
  destruct (startTransition_keeps (selectTarget (checkMotionTimeout s0 now)))
    as (-> & -> & -> & _).
  assert (baseBrightness (checkMotionTimeout s0 now)
          = calculateBaseBrightness Lux) as Hb
    by (unfold checkMotionTimeout; destruct (_ && _); reflexivity).
  assert (isMove (checkMotionTimeout s0 now)
          = isMove (checkMotionTimeout s now)) as Hm
    by (unfold checkMotionTimeout; subst s0; state_fields;
        destruct (_ && _); reflexivity).
  unfold selectTarget. state_fields. rewrite Hb, Hm.
  pose proof (calculateBaseBrightness_values Lux) as Hv.
  split; [reflexivity|]. split; [exact Hv|]. split; [reflexivity|].
  rewrite Z.gtb_ltb. split; [reflexivity|].
  unfold BRIGHTNESS_MAX. cbn [In] in Hv |- *.
  destruct Hv as [E|[E|[E|[E|[]]]]]; rewrite <- E; cbn;
    destruct (isMove (checkMotionTimeout s now)); cbn;
    split; auto 10; intros; congruence.
Qed.

(** ** The shape of the two curves *)

Lemma rising_shape_table :
  forallb (fun d => forallb (risingShape d) (zrange 1 40)) (zrange 1 255)
  = true.
Proof. vm_compute. reflexivity. Qed.

Lemma falling_shape_table (build : F32.Contraction) :
  forallb (fun d => forallb (@fallingShape build d) (zrange 1 60))
          (zrange 1 255)
  = true.
Proof. destruct build; vm_compute; reflexivity. Qed.

Lemma steps_monotone (f : Z -> Z) hi :
  (forall k, 1 <= k < hi -> f k <= f (k + 1)) ->
  forall i j, 1 <= i <= j -> j <= hi -> f i <= f j.
Proof.
  intros Hstep i j Hij Hj.
  replace j with (i + Z.of_nat (Z.to_nat (j - i))) in * by lia.
  induction (Z.to_nat (j - i)) as [|n IH].
  - rewrite Z.add_0_r. lia.
  - rewrite Nat2Z.inj_succ in *.
    replace (i + Z.succ (Z.of_nat n)) with (i + Z.of_nat n + 1) in * by lia.
    specialize (IH ltac:(lia) ltac:(lia)).
    specialize (Hstep (i + Z.of_nat n) ltac:(lia)). lia.
Qed.

Lemma rising_shape delta :
  1 <= delta <= 255 ->
  (forall i j, 1 <= i <= j -> j <= 40 ->
               risingOffset delta i <= risingOffset delta j) /\
  risingOffset delta 40 = delta /\
  (forall k, 1 <= k <= 39 -> 0 <= risingOffset delta k < delta).
Proof.
  intros Hd.
  assert (forall k, 1 <= k <= 40 -> risingShape delta k = true) as Hshape.
  { intros k Hk. apply (table_complete risingShape 255 40);
      [apply rising_shape_table|lia|lia]. }
  assert (forall k, 1 <= k < 40 ->
                    risingOffset delta k <= risingOffset delta (k + 1))
    as Hstep.
  { intros k Hk. specialize (Hshape k ltac:(lia)).
    unfold risingShape in Hshape. cbv zeta in Hshape.
    apply andb_prop in Hshape. destruct Hshape as [H _].
    apply andb_prop in H. destruct H as [H _].
    destruct (Z.ltb_spec k 40); [|lia].
    apply Z.leb_le in H. exact H. }
  assert (risingOffset delta 39 < delta) as H39.
  { specialize (Hshape 39 ltac:(lia)).
    unfold risingShape in Hshape. cbv zeta in Hshape.
    apply andb_prop in Hshape. destruct Hshape as [_ H].
    cbn [negb Z.eqb Pos.eqb orb] in H. apply Z.ltb_lt in H. exact H. }
  split; [apply steps_monotone; assumption|]. split.
  - specialize (Hshape 40 ltac:(lia)).
    unfold risingShape in Hshape. cbv zeta in Hshape.
    apply andb_prop in Hshape. destruct Hshape as [H _].
    apply andb_prop in H. destruct H as [_ H].
    cbn [negb Z.eqb Pos.eqb orb] in H. apply Z.eqb_eq in H. exact H.
  - intros k Hk.
    destruct (rising_offset_exact delta k) as (_ & _ & Hr); [lia|lia|].
    pose proof (steps_monotone _ 40 Hstep k 39 ltac:(lia) ltac:(lia)). lia.
Qed.

Lemma falling_shape delta :
  1 <= delta <= 255 ->
  (forall i j, 1 <= i <= j -> j <= 60 ->
               fallingOffset delta i <= fallingOffset delta j) /\
  fallingOffset delta 60 = delta /\
  (forall k, 1 <= k <= 59 -> 0 <= fallingOffset delta k < delta) /\
  (forall k, 1 <= k <= 60 ->
     fallingOffset delta k
     = fallingExact delta k - (if fallingShort delta k then 1 else 0)).
Proof.
  intros Hd.
  assert (forall k, 1 <= k <= 60 -> fallingShape delta k = true) as Hshape.
  { intros k Hk. apply (table_complete fallingShape 255 60);
      [apply falling_shape_table|lia|lia]. }
  assert (forall k, 1 <= k < 60 ->
                    fallingOffset delta k <= fallingOffset delta (k + 1))
    as Hstep.
  { intros k Hk. specialize (Hshape k ltac:(lia)).
    unfold fallingShape in Hshape. cbv zeta in Hshape.
    apply andb_prop in Hshape. destruct Hshape as [H _].
    apply andb_prop in H. destruct H as [H _].
    apply andb_prop in H. destruct H as [_ H].
    destruct (Z.ltb_spec k 60); [|lia].
    apply Z.leb_le in H. exact H. }
  assert (fallingOffset delta 59 < delta) as H59.
  { specialize (Hshape 59 ltac:(lia)).
    unfold fallingShape in Hshape. cbv zeta in Hshape.
    apply andb_prop in Hshape. destruct Hshape as [_ H].
    cbn [negb Z.eqb Pos.eqb orb] in H. apply Z.ltb_lt in H. exact H. }
  split; [apply steps_monotone; assumption|]. split; [|split].
  - specialize (Hshape 60 ltac:(lia)).
    unfold fallingShape in Hshape. cbv zeta in Hshape.
    apply andb_prop in Hshape. destruct Hshape as [H _].
    apply andb_prop in H. destruct H as [_ H].
    cbn [negb Z.eqb Pos.eqb orb] in H. apply Z.eqb_eq in H. exact H.
  - intros k Hk.
    destruct (falling_offset_exact delta k) as (_ & Hr); [lia|lia|].
    pose proof (steps_monotone _ 60 Hstep k 59 ltac:(lia) ltac:(lia)). lia.
  - intros k Hk. specialize (Hshape k Hk).
    unfold fallingShape in Hshape. cbv zeta in Hshape.
    apply andb_prop in Hshape. destruct Hshape as [H _].
    apply andb_prop in H. destruct H as [H _].
    apply andb_prop in H. destruct H as [H _].
    apply Z.eqb_eq in H.
    destruct (falling_offset_exact delta k) as (-> & _); [lia|lia|].
    exact H.
Qed.

End Build.

(** ** What contraction changes *)

Lemma contraction_table :
  forallb (fun d => forallb (contractionCheck d) (zrange 1 60))
          (zrange 1 255)
  = true.
Proof. vm_compute. reflexivity. Qed.

(** X23. The two builds differ at nine points of the falling curve and
    nowhere else. For every distance from 1 to 255 and every step from
    1 to 60 the offset of the build that contracts
    1 - (1 - progress) * (1 - progress) into one fused multiply-subtract
    is the offset of the build that rounds the product and the
    subtraction separately, plus [contractionGain]: one more at
    (25,12), (50,12), (100,12), (200,12), (225,12) and (144,35), one
    less at (144,25), (225,4) and (225,16), the same elsewhere; at
    step 1 and at step 60 the two builds agree. *)
Theorem contraction_changes_nine_points delta step :
  1 <= delta <= 255 -> 1 <= step <= 60 ->
  fallingOffset (fp := true) delta step
  = fallingOffset (fp := false) delta step + contractionGain delta step /\
  -1 <= contractionGain delta step <= 1 /\
  (step = 1 \/ step = 60 -> contractionGain delta step = 0).
Proof.
  intros Hd Hk.
  pose proof (table_complete contractionCheck 255 60 contraction_table
                delta step ltac:(lia) ltac:(lia)) as H.
  apply Z.eqb_eq in H. split; [exact H|].
  unfold contractionGain. split.
  - repeat match goal with
           | |- context [if ?b then _ else _] => destruct b
           end; lia.
  - intros [-> | ->].
    + rewrite !andb_false_r. reflexivity.
    + rewrite !andb_false_r. reflexivity.
Qed.

Lemma contraction_changes_nine_points_witness :
  fallingOffset (fp := true) 50 12 = 18 /\
  fallingOffset (fp := false) 50 12 = 17 /\
  fallingOffset (fp := true) 144 25 = 94 /\
  fallingOffset (fp := false) 144 25 = 95.
Proof.
  destruct (contraction_changes_nine_points 50 12 ltac:(lia) ltac:(lia))
    as (H1 & _).
  destruct (contraction_changes_nine_points 144 25 ltac:(lia) ltac:(lia))
    as (H2 & _).
  rewrite H1, H2. vm_compute. repeat split.
Defined.

(** ** The theorems at work, in both builds *)

Lemma motion_latch_at_every_delay_witness :
  in_every_build (fun fp =>
  isMove (updateBrightness (motionISR (brightnessInit boot) 4294967000)
            (4294967000 + 5000)) = true).
Proof.
  apply build_by_build; intros fp.
  {
    exact (proj1 (motion_latch_at_every_delay (brightnessInit boot)
                    4294967000 5000 ltac:(lia))).
  }
  {
    exact (proj1 (motion_latch_at_every_delay (brightnessInit boot)
                    4294967000 5000 ltac:(lia))).
  }
Defined.

Lemma brightness_never_overshoots_witness :
  in_every_build (fun fp =>
  let s := run (brightnessInit boot)
             (ticks_of (dark_ticks [0; 50; 100; 150; 200; 250])) in
  startBrightness s <= currentBrightness s <= targetBrightness s).
Proof.
  apply build_by_build; intros fp.
  {
    intros s.
    assert (reachable s) as Hreach by (eexists; reflexivity).
    destruct (brightness_never_overshoots s Hreach) as ((Hr & _) & _).
    apply Hr. vm_compute. reflexivity.
  }
  {
    intros s.
    assert (reachable s) as Hreach by (eexists; reflexivity).
    destruct (brightness_never_overshoots s Hreach) as ((Hr & _) & _).
    apply Hr. vm_compute. reflexivity.
  }
Defined.

Lemma target_after_tick_witness :
  in_every_build (fun fp =>
  targetBrightness
    (calculatePerceivedBrightness (motionISR (brightnessInit boot) 0)
       (F32.of_int 600) 50) = 0).
Proof.
  apply build_by_build; intros fp.
  {
    destruct (target_after_tick (motionISR (brightnessInit boot) 0)
                (F32.of_int 600) 50) as (_ & _ & _ & _ & _ & H).
    apply H. vm_compute. reflexivity.
  }
  {
    destruct (target_after_tick (motionISR (brightnessInit boot) 0)
                (F32.of_int 600) 50) as (_ & _ & _ & _ & _ & H).
    apply H. vm_compute. reflexivity.
  }
Defined.

End BrightnessCurveFacts.

(* ================================================================== *)
(** * Whole transitions *)

Module RampFacts.
Import CInt CIntFacts Brightness BrightnessFacts BrightnessCurve
  BrightnessCurveFacts.

Section Build.
Context {fp : F32.Contraction}.

(** A tick on a state whose base is already the one of the reading. *)
Lemma tick_with_base s Lux now :
  baseBrightness s = calculateBaseBrightness Lux ->
  calculatePerceivedBrightness s Lux now = updateBrightness s now.
Proof.
  intros H. unfold calculatePerceivedBrightness. rewrite <- H.
  destruct s; reflexivity.
Qed.

Lemma rising_state_inv last c B k :
  0 <= c -> c < B -> B <= 255 -> 1 <= k <= 40 ->
  state_inv (rising_state last c B k).
Proof.
  intros Hc Hlt HB Hk.
  destruct (rising_offset_exact (B - c) k) as (_ & _ & Hoff); [lia|lia|].
  unfold state_inv, rising_state, is_uint8. state_fields.
  repeat split; try lia; discriminate.
Qed.

Lemma falling_state_inv last c B k :
  0 <= B -> B < c -> c <= 255 -> 1 <= k <= 60 ->
  state_inv (falling_state last c B k).
Proof.
  intros HB Hlt Hc Hk.
  destruct (falling_offset_exact (c - B) k) as (_ & Hoff); [lia|lia|].
  unfold state_inv, falling_state, is_uint8. state_fields.
  repeat split; try lia; discriminate.
Qed.

(** ** Ticks that change nothing in steps 1 to 3 *)

Lemma checkMotionTimeout_still s now :
  isMove s = false -> checkMotionTimeout s now = s.
Proof.
  intros H. unfold checkMotionTimeout. rewrite H. reflexivity.
Qed.

Lemma selectTarget_still s :
  isMove s = false -> targetBrightness s = baseBrightness s ->
  selectTarget s = s.
Proof.
  destruct s as [m c t b l k r f st]. state_fields. intros -> ->.
  unfold selectTarget. state_fields. rewrite andb_false_r. reflexivity.
Qed.

Lemma startTransition_rising s :
  isRising s = true -> isFalling s = false ->
  currentBrightness s < targetBrightness s ->
  startTransition s = s.
Proof.
  intros Hr Hf Hlt. unfold startTransition. rewrite Hr, Hf.
  destruct (Z.eqb_spec (targetBrightness s) (currentBrightness s)); [lia|].
  destruct (Z.gtb_spec (targetBrightness s) (currentBrightness s)); [|lia].
  reflexivity.
Qed.

Lemma startTransition_falling s :
  isRising s = false -> isFalling s = true ->
  targetBrightness s < currentBrightness s ->
  startTransition s = s.
Proof.
  intros Hr Hf Hlt. unfold startTransition. rewrite Hr, Hf.
  destruct (Z.eqb_spec (targetBrightness s) (currentBrightness s)); [lia|].
  destruct (Z.gtb_spec (targetBrightness s) (currentBrightness s)); [lia|].
  reflexivity.
Qed.

Lemma startTransition_on_target s :
  targetBrightness s = currentBrightness s -> startTransition s = s.
Proof.
  intros H. unfold startTransition. rewrite H, Z.eqb_refl. reflexivity.
Qed.

Lemma advanceCurve_on_target s :
  currentBrightness s = targetBrightness s ->
  advanceCurve s
  = advance s (brightnessStep s) (currentBrightness s) false false.
Proof.
  intros H. unfold advanceCurve.
  rewrite H, Z.ltb_irrefl, Z.gtb_ltb, Z.ltb_irrefl, !andb_false_r.
  reflexivity.
Qed.

(** ** The steps of a rise and of a fall *)

Lemma tick_rising last c B k Lux now :
  0 <= c -> c < B -> B <= 255 -> 1 <= k <= 39 ->
  calculateBaseBrightness Lux = B ->
  calculatePerceivedBrightness (rising_state last c B k) Lux now
  = rising_state last c B (k + 1).
Proof.
  intros Hc Hlt HB Hk Hbase.
  rewrite tick_with_base by (symmetry; exact Hbase).
  destruct (rising_shape (B - c) ltac:(lia)) as (_ & _ & Hbelow).
  specialize (Hbelow k Hk).
  unfold updateBrightness.
  rewrite checkMotionTimeout_still, selectTarget_still,
    startTransition_rising;
    try reflexivity; [|unfold rising_state; state_fields; lia].
  destruct (advanceCurve_rising (rising_state last c B k))
    as (_ & _ & ->).
  - apply rising_state_inv; lia.
  - reflexivity.
  - unfold rising_state. state_fields. lia.
  - unfold rising_state. state_fields.
    destruct (Z.leb_spec (k + 1) 40); [|lia]. reflexivity.
Qed.

Lemma tick_rising_last last c B Lux now :
  0 <= c -> c < B -> B <= 255 ->
  calculateBaseBrightness Lux = B ->
  calculatePerceivedBrightness (rising_state last c B 40) Lux now
  = settled_state last c B 40.
Proof.
  intros Hc Hlt HB Hbase.
  rewrite tick_with_base by (symmetry; exact Hbase).
  destruct (rising_shape (B - c) ltac:(lia)) as (_ & Hfull & _).
  assert (c + risingOffset (B - c) 40 = B) as Hcur by lia.
  unfold updateBrightness.
  rewrite checkMotionTimeout_still, selectTarget_still,
    startTransition_on_target, advanceCurve_on_target;
    try reflexivity;
    try (unfold rising_state; state_fields; lia).
  unfold rising_state, settled_state. state_fields. rewrite Hcur.
  reflexivity.
Qed.

Lemma tick_settled last c B n Lux now :
  calculateBaseBrightness Lux = B ->
  calculatePerceivedBrightness (settled_state last c B n) Lux now
  = settled_state last c B n.
Proof.
  intros Hbase.
  rewrite tick_with_base by (symmetry; exact Hbase).
  unfold updateBrightness.
  rewrite checkMotionTimeout_still, selectTarget_still,
    startTransition_on_target, advanceCurve_on_target; reflexivity.
Qed.

Lemma tick_falling last c B k Lux now :
  0 <= B -> B < c -> c <= 255 -> 1 <= k <= 59 ->
  calculateBaseBrightness Lux = B ->
  calculatePerceivedBrightness (falling_state last c B k) Lux now
  = falling_state last c B (k + 1).
Proof.
  intros HB Hlt Hc Hk Hbase.
  rewrite tick_with_base by (symmetry; exact Hbase).
  destruct (falling_shape (c - B) ltac:(lia)) as (_ & _ & Hbelow & _).
  specialize (Hbelow k Hk).
  unfold updateBrightness.
  rewrite checkMotionTimeout_still, selectTarget_still,
    startTransition_falling;
    try reflexivity; [|unfold falling_state; state_fields; lia].
  destruct (advanceCurve_falling (falling_state last c B k))
    as (_ & _ & ->).
  - apply falling_state_inv; lia.
  - reflexivity.
  - unfold falling_state. state_fields. lia.
  - unfold falling_state. state_fields.
    destruct (Z.leb_spec (k + 1) 60); [|lia]. reflexivity.
Qed.

Lemma tick_falling_last last c B Lux now :
  0 <= B -> B < c -> c <= 255 ->
  calculateBaseBrightness Lux = B ->
  calculatePerceivedBrightness (falling_state last c B 60) Lux now
  = settled_state last c B 60.
Proof.
  intros HB Hlt Hc Hbase.
  rewrite tick_with_base by (symmetry; exact Hbase).
  destruct (falling_shape (c - B) ltac:(lia)) as (_ & Hfull & _).
  assert (c - fallingOffset (c - B) 60 = B) as Hcur by lia.
  unfold updateBrightness.
  rewrite checkMotionTimeout_still, selectTarget_still,
    startTransition_on_target, advanceCurve_on_target;
    try reflexivity;
    try (unfold falling_state; state_fields; lia).
  unfold falling_state, settled_state. state_fields. rewrite Hcur.
  reflexivity.
Qed.

(** ** The first tick of a transition *)

Lemma quiet_tick s now :
  quiet s now ->
  checkMotionTimeout s now = set_motion s false (lastMotionTime s).
Proof.
  unfold quiet, checkMotionTimeout.
  destruct (isMove s && _) eqn:Hc; [reflexivity|].
  intros Hm. destruct s as [m c t b l k r f st]. state_fields.
  subst m. reflexivity.
Qed.

Lemma first_tick_up s Lux now B :
  state_inv s -> isRising s = false -> isFalling s = false ->
  quiet s now -> calculateBaseBrightness Lux = B ->
  currentBrightness s < B ->
  calculatePerceivedBrightness s Lux now
  = rising_state (lastMotionTime s) (currentBrightness s) B 1.
Proof.
  intros (Hc & _) Hr Hf Hq Hbase Hlt.
  pose proof (calculateBaseBrightness_uint8 Lux) as HB. rewrite Hbase in HB.
  unfold is_uint8 in *.
  unfold calculatePerceivedBrightness, updateBrightness. rewrite Hbase.
  rewrite quiet_tick
    by (unfold quiet, checkMotionTimeout in *; state_fields;
        destruct (isMove s && _); [reflexivity|exact Hq]).
  unfold selectTarget, set_motion. state_fields. rewrite andb_false_r.
  unfold startTransition. state_fields. rewrite Hr, Hf. cbn [negb orb].
  destruct (Z.eqb_spec B (currentBrightness s)); [lia|]. cbn [negb].
  destruct (Z.gtb_spec B (currentBrightness s)); [|lia].
  match goal with
  | |- advanceCurve ?s3 = _ =>
      destruct (advanceCurve_rising s3) as (_ & _ & ->)
  end.
  - unfold state_inv, restart, is_uint8. state_fields.
    repeat split; try lia; discriminate.
  - reflexivity.
  - unfold restart. state_fields. lia.
  - reflexivity.
Qed.

Lemma first_tick_down s Lux now B :
  state_inv s -> isRising s = false -> isFalling s = false ->
  quiet s now -> calculateBaseBrightness Lux = B ->
  B < currentBrightness s ->
  calculatePerceivedBrightness s Lux now
  = falling_state (lastMotionTime s) (currentBrightness s) B 1.
Proof.
  intros (Hc & _) Hr Hf Hq Hbase Hlt.
  pose proof (calculateBaseBrightness_uint8 Lux) as HB. rewrite Hbase in HB.
  unfold is_uint8 in *.
  unfold calculatePerceivedBrightness, updateBrightness. rewrite Hbase.
  rewrite quiet_tick
    by (unfold quiet, checkMotionTimeout in *; state_fields;
        destruct (isMove s && _); [reflexivity|exact Hq]).
  unfold selectTarget, set_motion. state_fields. rewrite andb_false_r.
  unfold startTransition. state_fields. rewrite Hr, Hf. cbn [negb orb].
  destruct (Z.eqb_spec B (currentBrightness s)); [lia|]. cbn [negb].
  destruct (Z.gtb_spec B (currentBrightness s)); [lia|].
  match goal with
  | |- advanceCurve ?s3 = _ =>
      destruct (advanceCurve_falling s3) as (_ & _ & ->)
  end.
  - unfold state_inv, restart, is_uint8. state_fields.
    repeat split; try lia; discriminate.
  - reflexivity.
  - unfold restart. state_fields. lia.
  - reflexivity.
Qed.

(** ** Following a closed form along the ticks *)

Lemma orbit (f : nat -> state) (P : F32.float * Z -> Prop) :
  (forall n t, (1 <= n)%nat -> P t ->
     calculatePerceivedBrightness (f n) (fst t) (snd t) = f (S n)) ->
  forall ticks n, (1 <= n)%nat -> Forall P ticks ->
    run (f n) (ticks_of ticks) = f (n + length ticks)%nat /\
    (forall i, (i < length ticks)%nat ->
       nth i (outputs (f n) ticks) 0
       = currentBrightness (f (n + S i)%nat)).
Proof.
  intros Hstep. unfold run.
  induction ticks as [|[Lux now] ticks IH]; intros n Hn Hall;
    cbn [ticks_of map fold_left length outputs step fst snd].
  - rewrite Nat.add_0_r. split; [reflexivity|]. intros i Hi. lia.
  - inversion Hall as [|? ? Ht Hrest]; subst.
    pose proof (Hstep n (Lux, now) Hn Ht) as E. cbn [fst snd] in E.
    rewrite E.
    destruct (IH (S n) ltac:(lia) Hrest) as [Hrun Hout].
    fold (ticks_of ticks). rewrite Hrun. split; [f_equal; lia|].
    intros [|i] Hi; cbn [nth].
    + f_equal. f_equal. lia.
    + rewrite Hout by lia. f_equal. f_equal. lia.
Qed.

Lemma ramp_up_step s B n t :
  0 <= currentBrightness s -> currentBrightness s < B -> B <= 255 ->
  (1 <= n)%nat -> calculateBaseBrightness (fst t) = B ->
  calculatePerceivedBrightness (ramp_up s B n) (fst t) (snd t)
  = ramp_up s B (S n).
Proof.
  intros Hc Hlt HB Hn Hbase. destruct n as [|n]; [lia|].
  unfold ramp_up.
  destruct (Nat.leb_spec (S n) 40), (Nat.leb_spec (S (S n)) 40); try lia.
  - rewrite tick_rising by (auto; lia). f_equal. lia.
  - replace (Z.of_nat (S n)) with 40 by lia.
    apply tick_rising_last; auto.
  - apply tick_settled; auto.
Qed.

Lemma ramp_down_step s B n t :
  0 <= B -> B < currentBrightness s -> currentBrightness s <= 255 ->
  (1 <= n)%nat -> calculateBaseBrightness (fst t) = B ->
  calculatePerceivedBrightness (ramp_down s B n) (fst t) (snd t)
  = ramp_down s B (S n).
Proof.
  intros HB Hlt Hc Hn Hbase. destruct n as [|n]; [lia|].
  unfold ramp_down.
  destruct (Nat.leb_spec (S n) 60), (Nat.leb_spec (S (S n)) 60); try lia.
  - rewrite tick_falling by (auto; lia). f_equal. lia.
  - replace (Z.of_nat (S n)) with 60 by lia.
    apply tick_falling_last; auto.
  - apply tick_settled; auto.
Qed.

(** The whole run, first tick included. *)
Lemma ramp_run (f : nat -> state) s B Lux now rest :
  f O = s ->
  calculatePerceivedBrightness s Lux now = f 1%nat ->
  (forall n t, (1 <= n)%nat -> calculateBaseBrightness (fst t) = B ->
     calculatePerceivedBrightness (f n) (fst t) (snd t) = f (S n)) ->
  Forall (fun t => calculateBaseBrightness (fst t) = B) rest ->
  let ticks := (Lux, now) :: rest in
  run s (ticks_of ticks) = f (length ticks) /\
  length (outputs s ticks) = length ticks /\
  (forall i, (i < length ticks)%nat ->
     nth i (outputs s ticks) 0 = currentBrightness (f (S i))).
Proof.
  intros H0 H1 Hstep Hall ticks. subst ticks.
  destruct (orbit f _ Hstep rest 1%nat ltac:(lia) Hall) as [Hrun Hout].
  split; [|split].
  - unfold run in *. cbn [ticks_of map fold_left step fst snd length].
    rewrite H1. exact Hrun.
  - apply outputs_length.
  - intros i Hi. cbn [outputs length] in *. rewrite H1.
    destruct i as [|i]; cbn [nth]; [reflexivity|].
    rewrite Hout by lia. reflexivity.
Qed.

(** ** Rise and fall from rest *)

(** X18. A rise takes forty ticks. When the engine is at rest in a
    reachable state, the motion flag is clear or expires at the first
    tick, and the readings of every tick give the same base [B] above
    the current brightness [c]: tick number k returns
    c + risingOffset (B - c) k up to the 40th and [B] afterwards; the
    values returned never decrease, stay between [c] and [B], and are
    [B] from the 40th tick on and not before. The engine is in the
    Rising phase up to the 40th tick and at rest from the 41st on, and
    a further tick with the same base then changes nothing. *)
Theorem rise_takes_forty_ticks s Lux now rest B :
  reachable s -> phase s = Idle -> quiet s now ->
  calculateBaseBrightness Lux = B ->
  Forall (fun t => calculateBaseBrightness (fst t) = B) rest ->
  currentBrightness s < B ->
  let c := currentBrightness s in
  let ticks := (Lux, now) :: rest in
  let out := outputs s ticks in
  let s' := run s (ticks_of ticks) in
  length out = length ticks /\
  (forall i, (i < length ticks)%nat ->
     nth i out 0
     = if (i <? 40)%nat then c + risingOffset (B - c) (Z.of_nat (S i))
       else B) /\
  (forall i j, (i <= j)%nat -> (j < length ticks)%nat ->
     c <= nth i out 0 /\ nth i out 0 <= nth j out 0 /\ nth j out 0 <= B) /\
  (forall i, (i < length ticks)%nat ->
     (nth i out 0 = B <-> (39 <= i)%nat)) /\
  ((length ticks <= 40)%nat -> phase s' = Rising) /\
  ((41 <= length ticks)%nat ->
     phase s' = Idle /\ currentBrightness s' = B /\
     forall t, calculateBaseBrightness (fst t) = B ->
               calculatePerceivedBrightness s' (fst t) (snd t) = s').
Proof.
  intros Hreach Hidle Hq Hbase Hrest Hlt c ticks out s'.
  pose proof (reachable_inv s Hreach) as Hinv.
  apply phase_idle in Hidle. destruct Hidle as [Hr Hf].
  pose proof (calculateBaseBrightness_uint8 Lux) as HB. rewrite Hbase in HB.
  pose proof Hinv as (Hc & _). unfold is_uint8 in HB, Hc. fold c in Hc, Hlt.
  destruct (ramp_run (ramp_up s B) s B Lux now rest) as (Hrun & Hlen & Hout).
  { reflexivity. }
  { apply first_tick_up; assumption. }
  { intros n t Hn Ht. apply ramp_up_step; auto; lia. }
  { exact Hrest. }
  fold ticks in Hrun, Hlen, Hout. fold out in Hlen, Hout. fold s' in Hrun.
  destruct (rising_shape (B - c) ltac:(lia)) as (Hmono & Hfull & Hbelow).
  assert (forall i, currentBrightness (ramp_up s B (S i))
                    = if (i <? 40)%nat
                      then c + risingOffset (B - c) (Z.of_nat (S i))
                      else B) as Hcur.
  { intros i. unfold ramp_up.
    destruct (Nat.leb_spec (S i) 40), (Nat.ltb_spec i 40); try lia;
      reflexivity. }
  assert (forall i, c <= currentBrightness (ramp_up s B (S i)) <= B) as Hbnd.
  { intros i. rewrite Hcur. destruct (Nat.ltb_spec i 40); [|lia].
    destruct (rising_offset_exact (B - c) (Z.of_nat (S i)))
      as (_ & _ & Hoff); lia. }
  split; [exact Hlen|]. split; [|split; [|split; [|split]]].
  - intros i Hi. rewrite Hout by assumption. apply Hcur.
  - intros i j Hij Hj. rewrite !Hout by lia.
    pose proof (Hbnd i). pose proof (Hbnd j).
    split; [lia|]. split; [|lia]. rewrite !Hcur.
    destruct (Nat.ltb_spec i 40), (Nat.ltb_spec j 40); try lia.
    + specialize (Hmono (Z.of_nat (S i)) (Z.of_nat (S j))). lia.
    + rewrite Hcur in H. destruct (Nat.ltb_spec i 40); lia.
  - intros i Hi. rewrite Hout, Hcur by assumption.
    destruct (Nat.ltb_spec i 40) as [Hi40|Hi40]; [|lia].
    destruct (Nat.eq_dec i 39) as [->|Hne].
    + change (Z.of_nat 40) with 40. lia.
    + specialize (Hbelow (Z.of_nat (S i)) ltac:(lia)). lia.
  - intros Hn. rewrite Hrun. unfold ticks in *. cbn [length] in *.
    unfold ramp_up.
    destruct (Nat.leb_spec (S (length rest)) 40); [reflexivity|lia].
  - intros Hn. rewrite Hrun. unfold ticks in *. cbn [length] in *.
    unfold ramp_up.
    destruct (Nat.leb_spec (S (length rest)) 40); [lia|].
    split; [reflexivity|]. split; [reflexivity|].
    intros t Ht. apply tick_settled. exact Ht.
Qed.

(** X19. A fall takes sixty ticks, in both builds. Under the same
    conditions with the base [B] below the current brightness [c]: tick
    number k returns c - fallingOffset (c - B) k up to the 60th, the
    offset being the one of the build, and [B] afterwards; the
    values returned never increase, stay between [B] and [c], and are
    [B] from the 60th tick on and not before. The engine is in the
    Falling phase up to the 60th tick and at rest from the 61st on, and
    a further tick with the same base then changes nothing. *)
Theorem fall_takes_sixty_ticks s Lux now rest B :
  reachable s -> phase s = Idle -> quiet s now ->
  calculateBaseBrightness Lux = B ->
  Forall (fun t => calculateBaseBrightness (fst t) = B) rest ->
  B < currentBrightness s ->
  let c := currentBrightness s in
  let ticks := (Lux, now) :: rest in
  let out := outputs s ticks in
  let s' := run s (ticks_of ticks) in
  length out = length ticks /\
  (forall i, (i < length ticks)%nat ->
     nth i out 0
     = if (i <? 60)%nat then c - fallingOffset (c - B) (Z.of_nat (S i))
       else B) /\
  (forall i j, (i <= j)%nat -> (j < length ticks)%nat ->
     B <= nth j out 0 /\ nth j out 0 <= nth i out 0 /\ nth i out 0 <= c) /\
  (forall i, (i < length ticks)%nat ->
     (nth i out 0 = B <-> (59 <= i)%nat)) /\
  ((length ticks <= 60)%nat -> phase s' = Falling) /\
  ((61 <= length ticks)%nat ->
     phase s' = Idle /\ currentBrightness s' = B /\
     forall t, calculateBaseBrightness (fst t) = B ->
               calculatePerceivedBrightness s' (fst t) (snd t) = s').
Proof.
  intros Hreach Hidle Hq Hbase Hrest Hlt c ticks out s'.
  pose proof (reachable_inv s Hreach) as Hinv.
  apply phase_idle in Hidle. destruct Hidle as [Hr Hf].
  pose proof (calculateBaseBrightness_uint8 Lux) as HB. rewrite Hbase in HB.
  pose proof Hinv as (Hc & _). unfold is_uint8 in HB, Hc. fold c in Hc, Hlt.
  destruct (ramp_run (ramp_down s B) s B Lux now rest)
    as (Hrun & Hlen & Hout).
  { reflexivity. }
  { apply first_tick_down; assumption. }
  { intros n t Hn Ht. apply ramp_down_step; auto; lia. }
  { exact Hrest. }
  fold ticks in Hrun, Hlen, Hout. fold out in Hlen, Hout. fold s' in Hrun.
  destruct (falling_shape (c - B) ltac:(lia))
    as (Hmono & Hfull & Hbelow & _).
  assert (forall i, currentBrightness (ramp_down s B (S i))
                    = if (i <? 60)%nat
                      then c - fallingOffset (c - B) (Z.of_nat (S i))
                      else B) as Hcur.
  { intros i. unfold ramp_down.
    destruct (Nat.leb_spec (S i) 60), (Nat.ltb_spec i 60); try lia;
      reflexivity. }
  assert (forall i, B <= currentBrightness (ramp_down s B (S i)) <= c)
    as Hbnd.
  { intros i. rewrite Hcur. destruct (Nat.ltb_spec i 60); [|lia].
    destruct (falling_offset_exact (c - B) (Z.of_nat (S i)))
      as (_ & Hoff); lia. }
  split; [exact Hlen|]. split; [|split; [|split; [|split]]].
  - intros i Hi. rewrite Hout by assumption. apply Hcur.
  - intros i j Hij Hj. rewrite !Hout by lia.
    pose proof (Hbnd i). pose proof (Hbnd j).
    split; [lia|]. split; [|lia]. rewrite !Hcur.
    destruct (Nat.ltb_spec i 60), (Nat.ltb_spec j 60); try lia.
    + specialize (Hmono (Z.of_nat (S i)) (Z.of_nat (S j))). lia.
    + rewrite Hcur in H. destruct (Nat.ltb_spec i 60); lia.
  - intros i Hi. rewrite Hout, Hcur by assumption.
    destruct (Nat.ltb_spec i 60) as [Hi60|Hi60]; [|lia].
    destruct (Nat.eq_dec i 59) as [->|Hne].
    + change (Z.of_nat 60) with 60. lia.
    + specialize (Hbelow (Z.of_nat (S i)) ltac:(lia)). lia.
  - intros Hn. rewrite Hrun. unfold ticks in *. cbn [length] in *.
    unfold ramp_down.
    destruct (Nat.leb_spec (S (length rest)) 60); [reflexivity|lia].
  - intros Hn. rewrite Hrun. unfold ticks in *. cbn [length] in *.
    unfold ramp_down.
    destruct (Nat.leb_spec (S (length rest)) 60); [lia|].
    split; [reflexivity|]. split; [reflexivity|].
    intros t Ht. apply tick_settled. exact Ht.
Qed.

(** ** One falling step, and reversals *)



Lemma reversal_in_update s now :
  state_inv s ->
  let target := targetBrightness (selectTarget (checkMotionTimeout s now)) in
  let c := currentBrightness s in
  let s' := updateBrightness s now in
  (isRising s = true -> target < c ->
     phase s' = Falling /\ brightnessStep s' = 1 /\
     startBrightness s' = c /\ targetBrightness s' = target /\
     currentBrightness s' = c - fallingOffset (c - target) 1) /\
  (isFalling s = true -> c < target ->
     phase s' = Rising /\ brightnessStep s' = 1 /\
     startBrightness s' = c /\ targetBrightness s' = target /\
     currentBrightness s' = c + risingOffset (target - c) 1).
Proof.
  intros Hinv target c s'.
  set (s2 := selectTarget (checkMotionTimeout s now)) in *.
  assert (state_inv s2) as Hinv2
    by (apply selectTarget_inv, checkMotionTimeout_inv, Hinv).
  assert (isRising s2 = isRising s /\ isFalling s2 = isFalling s /\
          currentBrightness s2 = c) as (Hr2 & Hf2 & Hc2).
  { unfold s2, selectTarget, checkMotionTimeout. state_fields.
    destruct (isMove s && _); repeat split. }
  assert (s' = advanceCurve (startTransition s2)) as Hs' by reflexivity.
  destruct Hinv as (_ & _ & _ & _ & _ & Hr & Hf).
  pose proof Hinv2 as (Hcur & Htgt & _). unfold is_uint8 in Hcur, Htgt.
  fold target in Htgt. rewrite Hc2 in Hcur.
  split.
  - intros Hris Hlt. destruct (Hr Hris) as (Hfal & _).
    assert (startTransition s2 = restart s2 false true) as Hst.
    { unfold startTransition. rewrite Hr2, Hf2, Hris, Hfal, Hc2.
      fold target.
      destruct (Z.eqb_spec target c); [lia|].
      destruct (Z.gtb_spec target c); [lia|reflexivity]. }
    rewrite Hst in Hs'.
    destruct (advanceCurve_falling (restart s2 false true))
      as (_ & _ & Hadv).
    + rewrite <- Hst. apply startTransition_inv, Hinv2.
    + reflexivity.
    + unfold restart. state_fields. fold target. lia.
    + rewrite Hadv in Hs'. unfold restart in Hs'. state_fields.
      change (0 + 1) with 1 in Hs'. change (1 <=? 60) with true in Hs'.
      cbn iota in Hs'. rewrite Hs'. unfold phase. state_fields.
      rewrite Hc2. fold target. repeat split.
  - intros Hfal Hlt. destruct (Hf Hfal) as (Hris & _).
    assert (startTransition s2 = restart s2 true false) as Hst.
    { unfold startTransition. rewrite Hr2, Hf2, Hris, Hfal, Hc2.
      fold target.
      destruct (Z.eqb_spec target c); [lia|].
      destruct (Z.gtb_spec target c); [reflexivity|lia]. }
    rewrite Hst in Hs'.
    destruct (advanceCurve_rising (restart s2 true false))
      as (_ & _ & Hadv).
    + rewrite <- Hst. apply startTransition_inv, Hinv2.
    + reflexivity.
    + unfold restart. state_fields. fold target. lia.
    + rewrite Hadv in Hs'. unfold restart in Hs'. state_fields.
      change (0 + 1) with 1 in Hs'. change (1 <=? 40) with true in Hs'.
      cbn iota in Hs'. rewrite Hs'. unfold phase. state_fields.
      rewrite Hc2. fold target. repeat split.
Qed.

(** X21. A target on the other side of the current brightness restarts
    the curve at once. In a reachable state, when the engine is rising
    and the tick chooses a target below the current brightness, that
    tick leaves the engine in the Falling phase at step 1, with the
    current brightness as new start, and already takes the first
    falling step from it; and the same the other way round when the
    engine is falling and the target chosen is above. *)
Theorem reversal_restarts_the_curve s Lux now :
  reachable s ->
  let s' := calculatePerceivedBrightness s Lux now in
  let target := targetBrightness s' in
  let c := currentBrightness s in
  (isRising s = true -> target < c ->
     phase s' = Falling /\ brightnessStep s' = 1 /\
     startBrightness s' = c /\
     currentBrightness s' = c - fallingOffset (c - target) 1) /\
  (isFalling s = true -> c < target ->
     phase s' = Rising /\ brightnessStep s' = 1 /\
     startBrightness s' = c /\
     currentBrightness s' = c + risingOffset (target - c) 1).
Proof.
  intros Hreach s' target c.
  pose proof (reachable_inv s Hreach) as (Hc & Ht & Hb & Hs & Hstep & Hr & Hf).
  set (s0 := set_base s (calculateBaseBrightness Lux)).
  assert (state_inv s0) as Hinv0.
  { unfold state_inv, s0. state_fields.
    pose proof (calculateBaseBrightness_uint8 Lux). auto 10. }
  assert (s' = updateBrightness s0 now) as Hs' by reflexivity.
  assert (target
          = targetBrightness (selectTarget (checkMotionTimeout s0 now)))
    as Htarget.
  { unfold target. rewrite Hs'. unfold updateBrightness.
    destruct (advanceCurve_keeps
                (startTransition (selectTarget (checkMotionTimeout s0 now))))
      as (_ & -> & _).
    destruct (startTransition_keeps
                (selectTarget (checkMotionTimeout s0 now)))
      as (_ & -> & _).
    reflexivity. }
  destruct (reversal_in_update s0 now Hinv0) as [Hdown Hup].
  rewrite <- Htarget, <- Hs' in Hdown, Hup.
  change (currentBrightness s0) with c in Hdown, Hup.
  change (isRising s0) with (isRising s) in Hdown.
  change (isFalling s0) with (isFalling s) in Hup.
  split.
  - intros H1 H2. destruct (Hdown H1 H2) as (A & B & C & _ & E). auto.
  - intros H1 H2. destruct (Hup H1 H2) as (A & B & C & _ & E). auto.
Qed.

(** ** The boost that motion gives *)

Lemma checkMotionTimeout_in_time s t0 now :
  lastMotionTime s = millis t0 -> in_time t0 now ->
  checkMotionTimeout s now = s.
Proof.
  unfold in_time, checkMotionTimeout. intros -> H.
  destruct (Z.gtb_spec (to_uint32 (millis now - millis t0)) motionTimeout);
    [lia|].
  rewrite andb_false_r. reflexivity.
Qed.

Lemma selectTarget_boost s :
  isMove s = true -> 0 < baseBrightness s ->
  targetBrightness s = BRIGHTNESS_MAX ->
  selectTarget s = s.
Proof.
  destruct s as [m c t b l k r f st]. state_fields. intros -> Hb ->.
  unfold selectTarget. state_fields.
  destruct (Z.gtb_spec b 0); [reflexivity|lia].
Qed.

Lemma boost_state_inv last c B k :
  0 <= c -> c < 255 -> is_uint8 B -> 1 <= k <= 40 ->
  state_inv (boost_state last c B k).
Proof.
  intros Hc Hlt HB Hk. unfold BRIGHTNESS_MAX, is_uint8 in *.
  destruct (rising_offset_exact (255 - c) k) as (_ & _ & Hoff); [lia|lia|].
  unfold state_inv, boost_state, is_uint8, BRIGHTNESS_MAX. state_fields.
  repeat split; try lia; discriminate.
Qed.

Lemma boost_step s t0 B n t :
  0 <= currentBrightness s -> currentBrightness s < 255 ->
  0 < B -> is_uint8 B ->
  (1 <= n)%nat ->
  calculateBaseBrightness (fst t) = B /\ in_time t0 (snd t) ->
  calculatePerceivedBrightness (boost s t0 B n) (fst t) (snd t)
  = boost s t0 B (S n).
Proof.
  intros Hc Hlt HB0 HB Hn [Hbase Htime]. destruct n as [|n]; [lia|].
  set (c := currentBrightness s) in *.
  destruct (rising_shape (255 - c) ltac:(lia)) as (_ & Hfull & Hbelow).
  unfold boost. fold c.
  destruct (Nat.leb_spec (S n) 40), (Nat.leb_spec (S (S n)) 40); try lia.
  - rewrite tick_with_base by (symmetry; exact Hbase).
    specialize (Hbelow (Z.of_nat (S n)) ltac:(lia)).
    unfold updateBrightness.
    rewrite (checkMotionTimeout_in_time _ t0), selectTarget_boost,
      startTransition_rising;
      try reflexivity; try assumption;
      try (unfold boost_state, BRIGHTNESS_MAX; state_fields; lia).
    destruct (advanceCurve_rising (boost_state (millis t0) c B
                                     (Z.of_nat (S n))))
      as (_ & _ & ->).
    + apply boost_state_inv; auto; lia.
    + reflexivity.
    + unfold boost_state, BRIGHTNESS_MAX. state_fields. lia.
    + unfold boost_state. state_fields.
      destruct (Z.leb_spec (Z.of_nat (S n) + 1) 40); [|lia].
      replace (Z.of_nat (S (S n))) with (Z.of_nat (S n) + 1) by lia.
      reflexivity.
  - rewrite tick_with_base by (symmetry; exact Hbase).
    replace (Z.of_nat (S n)) with 40 by lia.
    assert (c + risingOffset (BRIGHTNESS_MAX - c) 40 = BRIGHTNESS_MAX)
      as Hcur by (unfold BRIGHTNESS_MAX; lia).
    unfold updateBrightness.
    rewrite (checkMotionTimeout_in_time _ t0), selectTarget_boost,
      startTransition_on_target, advanceCurve_on_target;
      try reflexivity; try assumption;
      try (unfold boost_state; state_fields; lia).
    unfold boost_state, boosted_state. state_fields. rewrite Hcur.
    reflexivity.
  - rewrite tick_with_base by (symmetry; exact Hbase).
    unfold updateBrightness.
    rewrite (checkMotionTimeout_in_time _ t0), selectTarget_boost,
      startTransition_on_target, advanceCurve_on_target;
      try reflexivity; assumption.
Qed.

Lemma first_tick_boost s t0 Lux now B :
  state_inv s -> isRising s = false -> isFalling s = false ->
  currentBrightness s < 255 -> 0 < B ->
  calculateBaseBrightness Lux = B -> in_time t0 now ->
  calculatePerceivedBrightness (motionISR s t0) Lux now
  = boost_state (millis t0) (currentBrightness s) B 1.
Proof.
  intros (Hc & _) Hr Hf Hlt HB0 Hbase Htime.
  pose proof (calculateBaseBrightness_uint8 Lux) as HB. rewrite Hbase in HB.
  unfold is_uint8 in *.
  unfold calculatePerceivedBrightness, updateBrightness, motionISR.
  rewrite Hbase. state_fields.
  rewrite (checkMotionTimeout_in_time _ t0) by (auto; reflexivity).
  unfold selectTarget. state_fields.
  destruct (Z.gtb_spec B 0); [|lia]. cbn [andb].
  unfold startTransition. state_fields. rewrite Hr, Hf. cbn [negb orb].
  unfold BRIGHTNESS_MAX.
  destruct (Z.eqb_spec 255 (currentBrightness s)); [lia|]. cbn [negb].
  destruct (Z.gtb_spec 255 (currentBrightness s)); [|lia].
  match goal with
  | |- advanceCurve ?s3 = _ =>
      destruct (advanceCurve_rising s3) as (_ & _ & ->)
  end.
  - unfold state_inv, restart, is_uint8. state_fields.
    repeat split; try lia; discriminate.
  - reflexivity.
  - unfold restart. state_fields. lia.
  - reflexivity.
Qed.

(** X22. Motion lights the lamp fully in forty ticks. When a motion
    trigger at [t0] finds the engine at rest in a reachable state below
    255, and every following tick runs within the timeout of the
    trigger with readings of the same non-zero base: tick number k
    returns c + risingOffset (255 - c) k up to the 40th, where [c] is
    the brightness at the trigger, and 255 afterwards; the values
    returned never decrease and are 255 from the 40th tick on and not
    before; the motion flag stays set. *)
Theorem motion_boost_takes_forty_ticks s t0 Lux now rest B :
  reachable s -> phase s = Idle -> currentBrightness s < 255 ->
  0 < B ->
  Forall (fun t => calculateBaseBrightness (fst t) = B /\
                   in_time t0 (snd t)) ((Lux, now) :: rest) ->
  let c := currentBrightness s in
  let ticks := (Lux, now) :: rest in
  let out := outputs (motionISR s t0) ticks in
  let s' := run (motionISR s t0) (ticks_of ticks) in
  length out = length ticks /\
  (forall i, (i < length ticks)%nat ->
     nth i out 0
     = if (i <? 40)%nat then c + risingOffset (255 - c) (Z.of_nat (S i))
       else 255) /\
  (forall i j, (i <= j)%nat -> (j < length ticks)%nat ->
     c <= nth i out 0 /\ nth i out 0 <= nth j out 0 /\ nth j out 0 <= 255) /\
  (forall i, (i < length ticks)%nat ->
     (nth i out 0 = 255 <-> (39 <= i)%nat)) /\
  isMove s' = true /\ targetBrightness s' = 255.
Proof.
  intros Hreach Hidle Hlt HB0 Hall c ticks out s'.
  pose proof (reachable_inv s Hreach) as Hinv.
  apply phase_idle in Hidle. destruct Hidle as [Hr Hf].
  inversion Hall as [|? ? [Hbase Htime] Hrest]; subst.
  cbn [fst snd] in Htime.
  pose proof (calculateBaseBrightness_uint8 Lux) as HB.
  pose proof Hinv as (Hc & _). unfold is_uint8 in Hc. fold c in Hc, Hlt.
  destruct (orbit (boost s t0 (calculateBaseBrightness Lux)) _
              (fun n t Hn Ht =>
                 boost_step s t0 _ n t (proj1 Hc) Hlt HB0 HB Hn Ht)
              rest 1%nat ltac:(lia) Hrest) as [Hrun Hout'].
  pose proof (first_tick_boost s t0 Lux now _ Hinv Hr Hf Hlt HB0
                eq_refl Htime) as Hfirst.
  set (B := calculateBaseBrightness Lux) in *.
  assert (s' = boost s t0 B (length ticks)) as Hs'.
  { unfold s', ticks, run.
    cbn [ticks_of map fold_left step fst snd length].
    rewrite Hfirst. exact Hrun. }
  assert (forall i, (i < length ticks)%nat ->
                    nth i out 0 = currentBrightness (boost s t0 B (S i)))
    as Hout.
  { intros i Hi. unfold out, ticks in *. cbn [outputs length] in *.
    rewrite Hfirst. destruct i as [|i]; cbn [nth]; [reflexivity|].
    rewrite Hout' by lia. reflexivity. }
  destruct (rising_shape (255 - c) ltac:(lia)) as (Hmono & Hfull & Hbelow).
  assert (forall i, currentBrightness (boost s t0 B (S i))
                    = if (i <? 40)%nat
                      then c + risingOffset (255 - c) (Z.of_nat (S i))
                      else 255) as Hcur.
  { intros i. unfold boost.
    destruct (Nat.leb_spec (S i) 40), (Nat.ltb_spec i 40); try lia;
      reflexivity. }
  assert (forall i, c <= currentBrightness (boost s t0 B (S i)) <= 255)
    as Hbnd.
  { intros i. rewrite Hcur. destruct (Nat.ltb_spec i 40); [|lia].
    destruct (rising_offset_exact (255 - c) (Z.of_nat (S i)))
      as (_ & _ & Hoff); lia. }
  split; [apply outputs_length|].
  split; [|split; [|split; [|split]]].
  - intros i Hi. rewrite Hout by assumption. apply Hcur.
  - intros i j Hij Hj. rewrite !Hout by lia.
    pose proof (Hbnd i). pose proof (Hbnd j).
    split; [lia|]. split; [|lia]. rewrite !Hcur.
    destruct (Nat.ltb_spec i 40), (Nat.ltb_spec j 40); try lia.
    + specialize (Hmono (Z.of_nat (S i)) (Z.of_nat (S j))). lia.
    + rewrite Hcur in H. destruct (Nat.ltb_spec i 40); lia.
  - intros i Hi. rewrite Hout, Hcur by assumption.
    destruct (Nat.ltb_spec i 40) as [Hi40|Hi40]; [|lia].
    destruct (Nat.eq_dec i 39) as [->|Hne].
    + change (Z.of_nat 40) with 40. lia.
    + specialize (Hbelow (Z.of_nat (S i)) ltac:(lia)). lia.
  - rewrite Hs'. unfold ticks. cbn [length]. unfold boost.
    destruct (_ <=? _)%nat; reflexivity.
  - rewrite Hs'. unfold ticks. cbn [length]. unfold boost.
    destruct (_ <=? _)%nat; reflexivity.
Qed.

End Build.

(** ** The theorems at work, in both builds *)

Lemma rise_takes_forty_ticks_witness :
  in_every_build (fun fp =>
  nth 0 (outputs (brightnessInit boot) [(lux50, 0); (lux50, 50)]) 0
  <= nth 1 (outputs (brightnessInit boot) [(lux50, 0); (lux50, 50)]) 0).
Proof.
  apply build_by_build; intros fp.
  {
    destruct (rise_takes_forty_ticks (brightnessInit boot) lux50 0
                [(lux50, 50)] 110) as (_ & _ & Hmono & _).
    - exists []. reflexivity.
    - reflexivity.
    - reflexivity.
    - vm_compute. reflexivity.
    - repeat constructor.
    - vm_compute. reflexivity.
    - apply (Hmono 0%nat 1%nat); cbn; lia.
  }
  {
    destruct (rise_takes_forty_ticks (brightnessInit boot) lux50 0
                [(lux50, 50)] 110) as (_ & _ & Hmono & _).
    - exists []. reflexivity.
    - reflexivity.
    - reflexivity.
    - vm_compute. reflexivity.
    - repeat constructor.
    - vm_compute. reflexivity.
    - apply (Hmono 0%nat 1%nat); cbn; lia.
  }
Defined.

Lemma fall_takes_sixty_ticks_witness :
  in_every_build (fun fp =>
  let s := run (brightnessInit boot)
             (ticks_of (repeat (F32.of_int 350, 0) 41)) in
  let rest := repeat (F32.of_int 600, 0) 11 in
  let out := outputs s ((F32.of_int 600, 0) :: rest) in
  currentBrightness s = 50 /\
  nth 11 out 0 = 50 - fallingOffset 50 12 /\
  nth 11 out 0 = if F32.fused then 32 else 33).
Proof.
  apply build_by_build; intros fp.
  {
    intros s rest out.
    destruct (fall_takes_sixty_ticks s (F32.of_int 600) 0 rest 0)
      as (_ & Hval & _).
    - eexists. reflexivity.
    - vm_compute. reflexivity.
    - vm_compute. reflexivity.
    - vm_compute. reflexivity.
    - apply Forall_forall. intros t Ht. apply repeat_spec in Ht.
      rewrite Ht. vm_compute. reflexivity.
    - vm_compute. reflexivity.
    - split; [vm_compute; reflexivity|].
      unfold out. rewrite (Hval 11%nat) by (vm_compute; reflexivity).
      split; vm_compute; reflexivity.
  }
  {
    intros s rest out.
    destruct (fall_takes_sixty_ticks s (F32.of_int 600) 0 rest 0)
      as (_ & Hval & _).
    - eexists. reflexivity.
    - vm_compute. reflexivity.
    - vm_compute. reflexivity.
    - vm_compute. reflexivity.
    - apply Forall_forall. intros t Ht. apply repeat_spec in Ht.
      rewrite Ht. vm_compute. reflexivity.
    - vm_compute. reflexivity.
    - split; [vm_compute; reflexivity|].
      unfold out. rewrite (Hval 11%nat) by (vm_compute; reflexivity).
      split; vm_compute; reflexivity.
  }
Defined.


Lemma reversal_restarts_the_curve_witness :
  in_every_build (fun fp =>
  let s := run (brightnessInit boot)
             (ticks_of (dark_ticks (repeat 0 20))) in
  phase (calculatePerceivedBrightness s (F32.of_int 600) 1000) = Falling /\
  brightnessStep (calculatePerceivedBrightness s (F32.of_int 600) 1000) = 1).
Proof.
  apply build_by_build; intros fp.
  {
    intros s.
    assert (reachable s) as Hreach by (eexists; reflexivity).
    destruct (reversal_restarts_the_curve s (F32.of_int 600) 1000 Hreach)
      as (Hdown & _).
    destruct Hdown as (Hp & Hk & _).
    - vm_compute. reflexivity.
    - vm_compute. reflexivity.
    - split; [exact Hp|exact Hk].
  }
  {
    intros s.
    assert (reachable s) as Hreach by (eexists; reflexivity).
    destruct (reversal_restarts_the_curve s (F32.of_int 600) 1000 Hreach)
      as (Hdown & _).
    destruct Hdown as (Hp & Hk & _).
    - vm_compute. reflexivity.
    - vm_compute. reflexivity.
    - split; [exact Hp|exact Hk].
  }
Defined.

Lemma motion_boost_takes_forty_ticks_witness :
  in_every_build (fun fp =>
  nth 0 (outputs (motionISR (brightnessInit boot) 1000)
           [(lux50, 1050); (lux50, 1100)]) 0
  <= nth 1 (outputs (motionISR (brightnessInit boot) 1000)
              [(lux50, 1050); (lux50, 1100)]) 0).
Proof.
  apply build_by_build; intros fp.
  {
    destruct (motion_boost_takes_forty_ticks (brightnessInit boot) 1000
                lux50 1050 [(lux50, 1100)] 110) as (_ & _ & Hmono & _).
    - exists []. reflexivity.
    - reflexivity.
    - vm_compute. reflexivity.
    - lia.
    - repeat (apply Forall_cons; [split; vm_compute;
                                  [reflexivity|discriminate]|]).
      apply Forall_nil.
    - apply (Hmono 0%nat 1%nat); cbn; lia.
  }
  {
    destruct (motion_boost_takes_forty_ticks (brightnessInit boot) 1000
                lux50 1050 [(lux50, 1100)] 110) as (_ & _ & Hmono & _).
    - exists []. reflexivity.
    - reflexivity.
    - vm_compute. reflexivity.
    - lia.
    - repeat (apply Forall_cons; [split; vm_compute;
                                  [reflexivity|discriminate]|]).
      apply Forall_nil.
    - apply (Hmono 0%nat 1%nat); cbn; lia.
  }
Defined.

End RampFacts.
